(** * Linear backlink synchronisation: a model of [SyncLinearBacklinksTask]

    The development embeds the task that keeps the backlink attachments of
    Linear issues in step with the issue mentions of an Outline document or
    collection ([plugins/linear/server/tasks/SyncLinearBacklinksTask.ts]),
    together with the processor that schedules it
    ([plugins/linear/server/processors/LinearBacklinksProcessor.ts]).

    Asynchronous functions are written in a small monad [Async] that carries
    the log entries written so far and the settlement of the promise
    (fulfilled with a value, or rejected with the thrown value).  The Linear
    SDK client, the database lookups, the job queue and the configured
    [env.URL] are the collaborators of the code: the client is a record of
    response functions, the others are variables of the sections that hold
    the task and the processor.  Every call that the code awaits may reject,
    and every function it calls inside a [try] may throw.  The platform's
    [URL] class is a parameter as well, with the laws of the URL Standard
    that the statements rest on. *)

From Stdlib Require Import String Ascii List Bool Arith Lia.
From stdpp Require Import base option list strings gmap sets.
Import ListNotations.
Local Open Scope string_scope.

(** ** JavaScript strings *)

(** [s.includes(sub)] *)
Fixpoint includes (s sub : string) : bool :=
  if String.prefix sub s then true
  else match s with
       | EmptyString => false
       | String _ s' => includes s' sub
       end.

(** [s.startsWith(p)] *)
Definition startsWith (s p : string) : bool := String.prefix p s.

(** Truthiness of a string: only the empty string is falsy. *)
Definition truthy (s : string) : bool :=
  match s with EmptyString => false | String _ _ => true end.

(** Truthiness of an optional string ([undefined] and [""] are falsy). *)
Definition truthy_opt (o : option string) : bool :=
  match o with Some s => truthy s | None => false end.

(** [a || b] on strings. *)
Definition or_else (a b : string) : string := if truthy a then a else b.

(** ** Thrown values, settled promises and the [Async] monad *)

(** A thrown value is an [Error] with its message, or any other value, of
    which the handlers only ever read [String(err)]. *)
Inductive thrown : Type :=
| ErrorObj (message : string)
| NonError (repr : string).

(** [err instanceof Error ? err.message : String(err)] *)
Definition err_message (err : thrown) : string :=
  match err with
  | ErrorObj message => message
  | NonError repr => repr
  end.

Inductive settled (A : Type) : Type :=
| Fulfilled (value : A)
| Rejected (reason : thrown).
Arguments Fulfilled {A} value.
Arguments Rejected {A} reason.

Inductive LogLevel : Type := Debug | Info | Warn.

Inductive LogData : Type :=
| LStr (s : string)
| LOpt (o : option string)
| LNum (n : nat).

Record LogEntry : Type := mkLog {
  log_level : LogLevel;
  log_message : string;
  log_extra : list (string * LogData)
}.

(** The log written by an asynchronous call and how its promise settles. *)
Definition Async (A : Type) : Type := (list LogEntry * settled A)%type.

Definition resolve {A} (a : A) : Async A := ([], Fulfilled a).
Definition throw {A} (e : thrown) : Async A := ([], Rejected e).

(** [await]: a rejected promise re-throws in the awaiting function. *)
Definition await {A B} (m : Async A) (k : A → Async B) : Async B :=
  match m with
  | (l, Fulfilled a) => let '(l', r) := k a in ((l ++ l')%list, r)
  | (l, Rejected e) => (l, Rejected e)
  end.

(** Awaiting a response of a collaborator, which writes no log. *)
Definition response {A} (r : settled A) : Async A := ([], r).

(** A synchronous call of a collaborator, which returns or throws. *)
Definition call {A} (r : settled A) : Async A := ([], r).

(** [try { body } catch (err) { handler }] *)
Definition try_catch {A} (body : Async A) (handler : thrown → Async A) : Async A :=
  match body with
  | (l, Fulfilled a) => (l, Fulfilled a)
  | (l, Rejected e) => let '(l', r) := handler e in ((l ++ l')%list, r)
  end.

(** [Logger.debug], [Logger.info] and [Logger.warn]; the category that the
    first two take before the message is left out. *)
Definition Logger (lvl : LogLevel) (message : string)
    (extra : list (string * LogData)) : Async unit :=
  ([mkLog lvl message extra], Fulfilled tt).

#[global] Instance Async_ret : MRet Async := @resolve.
#[global] Instance Async_bind : MBind Async := λ A B k m, await m k.

(** [Promise.allSettled]: every promise is waited for; the outcome is the
    list of settlements, in the order of the input, and never a rejection.
    The calls run concurrently and each writes its log entry, if any, when
    its last await settles, so the entries appear in the order in which the
    calls complete: [completion] lists the positions of the promises in
    that order. *)
Definition allSettled {A} (completion : list nat) (promises : list (Async A))
    : Async (list (settled A)) :=
  (concat (map (λ i, from_option fst [] (promises !! i)) completion),
   Fulfilled (map snd promises)).

(** [Promise.all]: fulfils with all the values, or rejects when one of the
    promises rejects.  The rejection reported here is the first in input
    order; the task does not look at which one it is. *)
Fixpoint all_values {A} (rs : list (settled A)) : settled (list A) :=
  match rs with
  | [] => Fulfilled []
  | Fulfilled a :: rs' =>
      match all_values rs' with
      | Fulfilled l => Fulfilled (a :: l)
      | Rejected e => Rejected e
      end
  | Rejected e :: _ => Rejected e
  end.

(** ** The platform's [URL] class

    [new URL(s)], [url.searchParams.set] and [url.toString()] belong to the
    JavaScript runtime, not to the repository: the class is a parameter of
    the task.  [URL] is the state of a URL object; [URL_parse] is
    [new URL(s)] without a base, [None] standing for the thrown [TypeError];
    the getters [protocol], [host], [pathname] and [hash] and the list of
    decoded [searchParams] serve to state what a URL object holds. *)

Record URLClass : Type := mkURLClass {
  URL : Type;
  URL_parse : string → option URL;
  URL_searchParams_set : URL → string → string → URL;
  URL_toString : URL → string;
  URL_protocol : URL → string;
  URL_host : URL → string;
  URL_pathname : URL → string;
  URL_hash : URL → string;
  URL_searchParams : URL → list (string * string)
}.

(** [URLSearchParams.set] on the list of pairs: the first pair named [name]
    takes the value and the other pairs of that name are removed; with no
    such pair, one is appended. *)
Fixpoint set_first (name value : string) (l : list (string * string))
    : list (string * string) :=
  match l with
  | [] => []
  | (n, v) :: l' =>
      if String.eqb n name
      then (n, value) :: List.filter (λ p, negb (String.eqb (fst p) name)) l'
      else (n, v) :: set_first name value l'
  end.

Definition searchParams_set (name value : string) (l : list (string * string))
    : list (string * string) :=
  if existsb (λ p, String.eqb (fst p) name) l
  then set_first name value l
  else (l ++ [(name, value)])%list.


(** Whether the character [c] occurs in [s]. *)
Fixpoint has_char (c : ascii) (s : string) : bool :=
  match s with
  | EmptyString => false
  | String a s' => Ascii.eqb a c || has_char c s'
  end.

Definition is_alpha (a : ascii) : bool :=
  let n := nat_of_ascii a in
  ((65 <=? n)%nat && (n <=? 90)%nat) || ((97 <=? n)%nat && (n <=? 122)%nat).

Definition is_digit (a : ascii) : bool :=
  let n := nat_of_ascii a in (48 <=? n)%nat && (n <=? 57)%nat.

(** The strings that the [application/x-www-form-urlencoded] serializer
    writes as they are: letters, digits and [*-._]. *)
Definition urlencoded_plain (s : string) : bool :=
  forallb (λ a, is_alpha a || is_digit a || Ascii.eqb a "*" || Ascii.eqb a "-"
                || Ascii.eqb a "." || Ascii.eqb a "_")
          (list_ascii_of_string s).

(** The strings that hold neither a space nor a control character, which
    the URL parser strips or refuses, nor the two characters that open the
    query and the fragment. *)
Definition clean_prefix (s : string) : bool :=
  forallb (λ a, (32 <? nat_of_ascii a)%nat) (list_ascii_of_string s)
  && negb (has_char "?" s) && negb (has_char "#" s).

(** The laws of the URL Standard that the statements rest on.

    - [url.searchParams.set] runs [URLSearchParams.set] on the list of the
      URL and writes the serialized list back as the query; scheme, host,
      path and fragment keep their values.
    - After it, the serialization of the URL holds every pair of plain
      strings of the list as [name=value].
    - The parser reads the authority up to the first slash and the path up
      to the first [?] or [#]: a path that opens with a slash and holds
      neither character, appended to a string that parses to a URL with a
      host, leaves scheme and host as they are, and query and fragment
      absent. *)
Record URLClass_laws (P : URLClass) : Prop := mkURLClass_laws {
  law_set_searchParams : ∀ u name value,
    URL_searchParams P (URL_searchParams_set P u name value)
    = searchParams_set name value (URL_searchParams P u);
  law_set_protocol : ∀ u name value,
    URL_protocol P (URL_searchParams_set P u name value) = URL_protocol P u;
  law_set_host : ∀ u name value,
    URL_host P (URL_searchParams_set P u name value) = URL_host P u;
  law_set_pathname : ∀ u name value,
    URL_pathname P (URL_searchParams_set P u name value) = URL_pathname P u;
  law_set_hash : ∀ u name value,
    URL_hash P (URL_searchParams_set P u name value) = URL_hash P u;
  law_toString_pair : ∀ u name value n v,
    (n, v) ∈ URL_searchParams P (URL_searchParams_set P u name value) →
    urlencoded_plain n = true → urlencoded_plain v = true →
    includes (URL_toString P (URL_searchParams_set P u name value))
             (n +:+ "=" +:+ v) = true;
  law_parse_path : ∀ prefix path base,
    URL_parse P prefix = Some base →
    URL_host P base ≠ "" →
    clean_prefix prefix = true →
    startsWith path "/" = true →
    has_char "?" path = false → has_char "#" path = false →
    ∃ url,
      URL_parse P (prefix +:+ path) = Some url
      ∧ URL_protocol P url = URL_protocol P base
      ∧ URL_host P url = URL_host P base
      ∧ URL_searchParams P url = []
      ∧ URL_hash P url = ""
}.

(** ** A small instance of the class

    Absolute hierarchical URLs [scheme://authority/path?query#fragment],
    carried verbatim: the parser cuts the string at the first [#], the first
    [?], the first [:] and the first [/] after the authority, and refuses a
    string without a valid scheme, without [//] after it, or with an empty
    authority; the query is kept as its list of pairs.  The instance shows
    that the laws hold together and runs the scenarios of the test suite, on
    whose URLs it agrees with the platform; normalisation, percent-encoding
    and the forms that the platform accepts without [//] are outside it. *)

Record PlainURL : Type := mkPlainURL {
  protocol : string;          (* the scheme, without its colon *)
  host : string;              (* the authority *)
  pathname : string;
  query : option (list (string * string));
  fragment : option string    (* without the leading hash *)
}.

(** Cuts [s] at the first occurrence of [c]. *)
Fixpoint split_at (c : ascii) (s : string) : string * option string :=
  match s with
  | EmptyString => (EmptyString, None)
  | String a s' =>
      if Ascii.eqb a c then (EmptyString, Some s')
      else let '(before, after) := split_at c s' in (String a before, after)
  end.

(** [s.split(c)] for a one-character separator. *)
Fixpoint split_on (c : ascii) (s : string) : list string :=
  match s with
  | EmptyString => [EmptyString]
  | String a s' =>
      if Ascii.eqb a c then EmptyString :: split_on c s'
      else match split_on c s' with
           | [] => [String a EmptyString]
           | piece :: pieces => String a piece :: pieces
           end
  end.

Definition is_scheme_char (a : ascii) : bool :=
  is_alpha a || is_digit a
  || Ascii.eqb a "+" || Ascii.eqb a "-" || Ascii.eqb a ".".

Definition valid_scheme (s : string) : bool :=
  match s with
  | EmptyString => false
  | String a s' => is_alpha a && forallb is_scheme_char (list_ascii_of_string s')
  end.

Definition is_special (scheme : string) : bool :=
  existsb (String.eqb scheme) ["http"; "https"; "ftp"; "ws"; "wss"; "file"].

(** What follows the two slashes that open the authority. *)
Definition after_slashes (s : string) : option string :=
  match s with
  | String a (String b rest) =>
      if Ascii.eqb a "/" && Ascii.eqb b "/" then Some rest else None
  | _ => None
  end.

(** The list of name-value pairs of a query string. *)
Definition urlencoded_parse (q : string) : list (string * string) :=
  map (λ piece, let '(name, value) := split_at "=" piece in
                (name, default "" value))
      (List.filter truthy (split_on "&" q)).

Fixpoint join (sep : string) (l : list string) : string :=
  match l with
  | [] => ""
  | [s] => s
  | s :: l' => s +:+ sep +:+ join sep l'
  end.

Definition urlencoded_serialize (l : list (string * string)) : string :=
  join "&" (map (λ p, fst p +:+ "=" +:+ snd p) l).

Definition plain_parse (s : string) : option PlainURL :=
  let '(s1, frag) := split_at "#" s in
  let '(s2, q) := split_at "?" s1 in
  match split_at ":" s2 with
  | (scheme, Some after_colon) =>
      match after_slashes after_colon with
      | Some rest =>
          if valid_scheme scheme then
            let '(authority, path) := split_at "/" rest in
            if truthy authority then
              Some {| protocol := scheme;
                      host := authority;
                      pathname := match path with
                                  | Some p => "/" +:+ p
                                  | None => if is_special scheme then "/" else ""
                                  end;
                      query := urlencoded_parse <$> q;
                      fragment := frag |}
            else None
          else None
      | None => None
      end
  | (_, None) => None
  end.

Definition plain_searchParams (u : PlainURL) : list (string * string) :=
  default [] (query u).

Definition plain_searchParams_set (u : PlainURL) (name value : string)
    : PlainURL :=
  {| protocol := protocol u;
     host := host u;
     pathname := pathname u;
     query := Some (searchParams_set name value (plain_searchParams u));
     fragment := fragment u |}.

Definition plain_toString (u : PlainURL) : string :=
  protocol u +:+ "://" +:+ host u +:+ pathname u
  +:+ match query u with
      | Some l => "?" +:+ urlencoded_serialize l
      | None => ""
      end
  +:+ match fragment u with Some f => "#" +:+ f | None => "" end.

Definition plain_hash (u : PlainURL) : string :=
  match fragment u with
  | Some f => if truthy f then "#" +:+ f else ""
  | None => ""
  end.

Definition PlainURLClass : URLClass :=
  {| URL := PlainURL;
     URL_parse := plain_parse;
     URL_searchParams_set := plain_searchParams_set;
     URL_toString := plain_toString;
     URL_protocol := λ u, protocol u +:+ ":";
     URL_host := host;
     URL_pathname := pathname;
     URL_hash := plain_hash;
     URL_searchParams := plain_searchParams |}.

(** ** Data of the task *)

Record Issue : Type := mkIssue {
  issue_id : string;
  identifier : string
}.

(** [interface LinearAttachment] *)
Record LinearAttachment : Type := mkAttachment {
  att_id : string;
  att_url : string;
  att_issue : Issue
}.

(** [interface Props] *)
Record Props : Type := mkProps {
  documentId : option string;
  collectionId : option string;
  teamId : string;
  currentIssueIdentifiers : list string
}.

(** An attachment as the SDK lists it: the linked issue is fetched lazily
    and may be [undefined]. *)
Record AttachmentNode : Type := mkNode {
  node_id : string;
  node_url : string;
  node_issue : settled (option Issue)
}.

Record AttachmentCreateInput : Type := mkCreateInput {
  input_issueId : string;
  input_title : string;
  input_subtitle : string;
  input_url : string;
  input_iconUrl : string
}.

(** The part of the Linear SDK client that the task calls.  Each call
    settles with a payload or rejects; the payloads of the two mutations are
    reduced to their [success] flag. *)
Record LinearClient : Type := mkClient {
  client_attachmentsForURL : string → settled (list AttachmentNode);
  client_issue : string → settled (option Issue);
  client_createAttachment : AttachmentCreateInput → settled bool;
  client_deleteAttachment : string → settled bool
}.

(** The fields of the two models that the task reads. *)
Record Document : Type := mkDocument {
  doc_title : string;
  doc_path : string
}.

Record Collection : Type := mkCollection {
  coll_name : string;
  coll_path : string
}.

#[global] Instance Issue_eq_dec : EqDecision Issue.
Proof. solve_decision. Defined.

#[global] Instance LinearAttachment_eq_dec : EqDecision LinearAttachment.
Proof. solve_decision. Defined.

Inductive OperationType : Type := create | delete.

Record Operation : Type := mkOperation {
  op_type : OperationType;
  op_identifier : string;
  op_promise : Async unit
}.

Definition OperationType_name (t : OperationType) : string :=
  match t with create => "create" | delete => "delete" end.

(** ** Constants and [buildAttachmentUrl] *)

Definition OUTLINE_ATTACHMENT_SUBTITLE : string := "Outline".
Definition OUTLINE_REF_PARAM : string := "ref".
Definition OUTLINE_REF_VALUE : string := "outline-backlink".

(** The URL object that [buildAttachmentUrl] serialises. *)
Definition attachmentUrlObject (platform : URLClass) (baseUrl : string)
    : option (URL platform) :=
  url ← URL_parse platform baseUrl;
  Some (URL_searchParams_set platform url OUTLINE_REF_PARAM OUTLINE_REF_VALUE).

Definition buildAttachmentUrl (platform : URLClass) (baseUrl : string)
    : Async string :=
  try_catch
    (match attachmentUrlObject platform baseUrl with
     | Some url => resolve (URL_toString platform url)
     | None => throw (ErrorObj "Invalid URL")
     end)
    (λ err, throw (ErrorObj ("Invalid attachment base URL: " +:+ baseUrl))).

(** ** The diff of [perform] *)

(** The four constants that [perform] computes between the fetch of the
    existing attachments and the construction of the operations:
    [existingIdentifiers], [desiredIdentifiers], [toCreate], [toDelete]. *)
Definition reconcile (currentIssueIdentifiers : list string)
    (existingAttachments : list LinearAttachment)
    : list string * list LinearAttachment :=
  let existingIdentifiers : gset string :=
    list_to_set ((λ a, identifier (att_issue a)) <$> existingAttachments) in
  let desiredIdentifiers : gset string :=
    list_to_set currentIssueIdentifiers in
  let toCreate :=
    filter (λ id, id ∉ existingIdentifiers) currentIssueIdentifiers in
  let toDelete :=
    filter (λ a, identifier (att_issue a) ∉ desiredIdentifiers)
           existingAttachments in
  (toCreate, toDelete).

Definition toCreate (desired : list string) (existing : list LinearAttachment)
    : list string := fst (reconcile desired existing).

Definition toDelete (desired : list string) (existing : list LinearAttachment)
    : list LinearAttachment := snd (reconcile desired existing).

(** The loop of [perform] over the settled results. *)
Fixpoint count_results (documentId collectionId : option string)
    (settledOps : list (Operation * settled unit)) (succeeded failed : nat)
    : Async (nat * nat) :=
  match settledOps with
  | [] => resolve (succeeded, failed)
  | (op, Rejected reason) :: rest =>
      Logger Warn "Linear backlink sync operation failed"
        [("documentId", LOpt documentId);
         ("collectionId", LOpt collectionId);
         ("operation", LStr (OperationType_name (op_type op)));
         ("issueIdentifier", LStr (op_identifier op));
         ("error", LStr (err_message reason))];;
      count_results documentId collectionId rest succeeded (S failed)
  | (op, Fulfilled _) :: rest =>
      count_results documentId collectionId rest (S succeeded) failed
  end.

(** [deleteAttachment] *)
Definition deleteAttachment (client : LinearClient) (attachmentId : string)
    : Async unit :=
  try_catch
    (success ← response (client_deleteAttachment client attachmentId);
     if negb success
     then throw (ErrorObj
            ("Linear attachmentDelete returned success=false for attachment "
             +:+ attachmentId))
     else resolve tt)
    (λ err,
       let message := err_message err in
       if includes message "Not found" || includes message "404"
       then resolve tt
       else throw err).

(** [fetchAttachmentsForUrl]; the filter on a resolved issue and the map to
    [LinearAttachment] are one pass. The error object attached to the
    warning is left out of the entry. *)
Definition fetchAttachmentsForUrl (client : LinearClient) (url : string)
    : Async (list LinearAttachment) :=
  try_catch
    (result ← response (client_attachmentsForURL client url);
     resolved ← response
       (all_values
          (map (λ attachment,
                  match node_issue attachment with
                  | Fulfilled issue => Fulfilled (attachment, issue)
                  | Rejected e => Rejected e
                  end) result));
     resolve
       (omap (λ r : AttachmentNode * option Issue,
                issue ← snd r;
                Some {| att_id := node_id (fst r);
                        att_url := node_url (fst r);
                        att_issue := {| issue_id := issue_id issue;
                                        identifier := identifier issue |} |})
             resolved))
    (λ err,
       Logger Warn "Failed to fetch Linear attachments for URL"
         [("url", LStr url)];;
       resolve []).

(** ** The task, over its collaborators *)

Section Task.

(** The [URL] class of the platform. *)
Variable platform : URLClass.
(** [env.URL]; the empty string stands for an unset value. *)
Variable env_URL : string.
(** [Linear.getClientForTeam]: the client of the team's integration, or
    [undefined]; the promise may reject. *)
Variable getClientForTeam : string → settled (option LinearClient).
(** [Document.findByPk] and [Collection.findByPk]: the row, or [null]; the
    promise may reject. *)
Variable Document_findByPk : string → settled (option Document).
Variable Collection_findByPk : string → settled (option Collection).
(** The order in which the operations of a run complete. *)
Variable completion : list nat.

(** [buildEntityUrl] *)
Definition buildEntityUrl (path : string) : string :=
  env_URL +:+ (if startsWith path "/" then path else "/" +:+ path).

(** [resolveTarget] *)
Definition resolveTarget (documentId collectionId : option string)
    : Async (string * string) :=
  (if truthy_opt documentId && truthy_opt collectionId
   then Logger Warn
          "Both documentId and collectionId provided to resolveTarget, using documentId"
          [("documentId", LOpt documentId);
           ("collectionId", LOpt collectionId)]
   else resolve tt);;
  if negb (truthy env_URL) then
    Logger Warn "env.URL is not configured, cannot construct attachment URL" [];;
    resolve ("", "")
  else if truthy_opt documentId then
    document ← response (Document_findByPk (default "" documentId));
    match document with
    | Some document =>
        if negb (truthy (doc_path document)) then resolve ("", "")
        else resolve (or_else (doc_title document) "Untitled",
                      buildEntityUrl (doc_path document))
    | None => resolve ("", "")
    end
  else if truthy_opt collectionId then
    collection ← response (Collection_findByPk (default "" collectionId));
    match collection with
    | Some collection =>
        if negb (truthy (coll_path collection)) then resolve ("", "")
        else resolve (or_else (coll_name collection) "Untitled Collection",
                      buildEntityUrl (coll_path collection))
    | None => resolve ("", "")
    end
  else resolve ("", "").

(** [createAttachment]; [params] is the triple of the issue identifier,
    the title and the URL. *)
Definition createAttachment (client : LinearClient)
    (issueIdentifier title url : string) : Async unit :=
  issue ← response (client_issue client issueIdentifier);
  match issue with
  | None =>
      Logger Debug
        ("Linear issue " +:+ issueIdentifier +:+ " not found, skipping attachment")
        []
  | Some issue =>
      try_catch
        (success ← response
           (client_createAttachment client
              {| input_issueId := issue_id issue;
                 input_title := title;
                 input_subtitle := OUTLINE_ATTACHMENT_SUBTITLE;
                 input_url := url;
                 input_iconUrl := env_URL +:+ "/images/icon-192.png" |});
         if negb success
         then throw (ErrorObj
                ("Linear attachmentCreate returned success=false for issue "
                 +:+ issueIdentifier))
         else resolve tt)
        (λ err,
           let message := err_message err in
           if includes message "Forbidden" || includes message "403"
           then Logger Warn
                  ("Linear integration lacks write permission for attachments. "
                   +:+ "Please re-authorize the Linear integration with updated scopes.")
                  [("issueIdentifier", LStr issueIdentifier)]
           else throw err)
  end.

(** The array [operations] of [perform]: the creations, then the
    deletions, each with the promise of its call. *)
Definition operations (client : LinearClient) (targetTitle attachmentUrl : string)
    (toCreate : list string) (toDelete : list LinearAttachment)
    : list Operation :=
  (map (λ identifier,
          {| op_type := create;
             op_identifier := identifier;
             op_promise :=
               createAttachment client identifier targetTitle attachmentUrl |})
       toCreate
   ++ map (λ attachment,
             {| op_type := delete;
                op_identifier := identifier (att_issue attachment);
                op_promise := deleteAttachment client (att_id attachment) |})
          toDelete)%list.

(** The part of [perform] from the diff to the summary. *)
Definition sync (props : Props) (client : LinearClient)
    (title attachmentUrl : string)
    (existingAttachments : list LinearAttachment) : Async unit :=
  let '(toCreate, toDelete) :=
    reconcile (currentIssueIdentifiers props) existingAttachments in
  let targetTitle := or_else title "Untitled" in
  let operations :=
    operations client targetTitle attachmentUrl toCreate toDelete in
  results ← allSettled completion (map op_promise operations);
  '(succeeded, failed) ←
    count_results (documentId props) (collectionId props)
      (zip operations results) 0 0;
  if (0 <? length operations)%nat then
    Logger Info "Linear backlinks sync completed"
      [("documentId", LOpt (documentId props));
       ("collectionId", LOpt (collectionId props));
       ("created", LNum (length toCreate));
       ("deleted", LNum (length toDelete));
       ("succeeded", LNum succeeded);
       ("failed", LNum failed)]
  else resolve tt.

(** [perform] *)
Definition perform (props : Props) : Async unit :=
  client ← response (getClientForTeam (teamId props));
  match client with
  | None => resolve tt
  | Some client =>
      '(title, baseUrl) ←
        resolveTarget (documentId props) (collectionId props);
      if negb (truthy baseUrl) then
        Logger Debug "Target not found, skipping Linear backlinks sync"
          [("documentId", LOpt (documentId props));
           ("collectionId", LOpt (collectionId props))]
      else
        attachmentUrl ← buildAttachmentUrl platform baseUrl;
        existingAttachments ← fetchAttachmentsForUrl client attachmentUrl;
        sync props client title attachmentUrl existingAttachments
  end.

End Task.

(** ** The processor's identifier list *)

Record Mention : Type := mkMention { href : option string }.

(** What [Linear.parseUrl] reads from a URL. *)
Record ParsedUrl : Type := mkParsedUrl {
  parsed_id : option string;
  parsed_workspaceKey : string
}.

(** [Set.prototype.add] on the values of a set in insertion order. *)
Definition Set_add (seen : list string) (x : string) : list string :=
  if bool_decide (x ∈ seen) then seen else (seen ++ [x])%list.

(** [[...new Set(identifiers)]]: the values in insertion order, each once. *)
Definition Set_values (identifiers : list string) : list string :=
  fold_left Set_add identifiers [].

Section Processor.

(** [Linear.parseUrl]: what it reads from the URL, [undefined] for a URL
    that is not of Linear, or the error it throws. *)
Variable Linear_parseUrl : string → settled (option ParsedUrl).

(** The loop of [extractLinearIssueIdentifiers] over the mentions; a throw
    of [Linear.parseUrl] leaves it. *)
Fixpoint collect_identifiers (mentions : list Mention) (workspaceKey : string)
    (identifiers : list string) : Async (list string) :=
  match mentions with
  | [] => resolve identifiers
  | mention :: rest =>
      if negb (truthy_opt (href mention))
      then collect_identifiers rest workspaceKey identifiers
      else
        parsed ← call (Linear_parseUrl (default "" (href mention)));
        match parsed with
        | Some parsed =>
            if truthy_opt (parsed_id parsed)
               && String.eqb (parsed_workspaceKey parsed) workspaceKey
            then collect_identifiers rest workspaceKey
                   (identifiers ++ [default "" (parsed_id parsed)])%list
            else collect_identifiers rest workspaceKey identifiers
        | None => collect_identifiers rest workspaceKey identifiers
        end
  end.

(** [extractLinearIssueIdentifiers], given the id of the entity and the
    mentions that [ProsemirrorHelper.parseMentions] returns for it, or the
    error that the helpers throw.  The error object attached to the warning
    is left out of the entry. *)
Definition extractLinearIssueIdentifiers (isDocument : bool) (entityId : string)
    (mentions : settled (list Mention)) (workspaceKey : string)
    : Async (list string) :=
  try_catch
    (mentions ← call mentions;
     identifiers ← collect_identifiers mentions workspaceKey [];
     resolve (Set_values identifiers))
    (λ err,
       Logger Warn
         ("Failed to extract Linear issue identifiers from "
          +:+ (if isDocument then "document" else "collection"))
         [(if isDocument then "documentId" else "collectionId", LStr entityId)];;
       resolve []).

End Processor.

(** ** The processor's handlers *)

(** The fields of an event that the processor reads.  The handlers read
    [documentId] on document events and [collectionId] on collection events,
    where the event types declare them; [teamId] may be missing. *)
Record Event : Type := mkEvent {
  event_name : string;
  event_documentId : string;
  event_collectionId : string;
  event_teamId : option string
}.

(** The fields of the two models that the processor reads, each with the
    issue mentions of its content: what [ProsemirrorHelper.parseMentions]
    returns for the node that [DocumentHelper.toProsemirror] builds, or the
    error that the two throw. *)
Record DocumentModel : Type := mkDocumentModel {
  document_id : string;
  document_teamId : string;
  document_publishedAt : option string;
  document_mentions : settled (list Mention)
}.

Record CollectionModel : Type := mkCollectionModel {
  collection_id : string;
  collection_teamId : string;
  collection_mentions : settled (list Mention)
}.

(** An integration, with [settings.linear?.workspace.key]. *)
Record Integration : Type := mkIntegration {
  integration_id : string;
  integration_workspaceKey : option string
}.

Section Handlers.

(** [Linear.parseUrl] *)
Variable Linear_parseUrl : string → settled (option ParsedUrl).
(** [Linear.getIntegrationForTeam]: the integration, or [undefined]; the
    promise may reject. *)
Variable Linear_getIntegrationForTeam : string → settled (option Integration).
(** [Document.findByPk] and [Collection.findByPk] *)
Variable DocumentModel_findByPk : string → settled (option DocumentModel).
Variable CollectionModel_findByPk : string → settled (option CollectionModel).
(** How the queue answers [new SyncLinearBacklinksTask().schedule(props)]. *)
Variable Task_schedule : Props → settled unit.

(** The call of [schedule]: the handlers return the jobs that they put on
    the queue. *)
Definition schedule (props : Props) : Async (list Props) :=
  response (Task_schedule props);;
  resolve [props].

(** [getWorkspaceKey] *)
Definition getWorkspaceKey (teamId : string) : Async (option string) :=
  integration ← response (Linear_getIntegrationForTeam teamId);
  match integration with
  | None => resolve None
  | Some integration =>
      let workspaceKey := integration_workspaceKey integration in
      if negb (truthy_opt workspaceKey) then
        Logger Warn "Linear integration has no workspace key configured"
          [("integrationId", LStr (integration_id integration));
           ("teamId", LStr teamId)];;
        resolve None
      else resolve workspaceKey
  end.

(** [handleDocumentUpdate] *)
Definition handleDocumentUpdate (event : Event) : Async (list Props) :=
  document ← response (DocumentModel_findByPk (event_documentId event));
  match document with
  | None => resolve []
  | Some document =>
      match document_publishedAt document with
      | None => resolve []
      | Some _ =>
          workspaceKey ← getWorkspaceKey (document_teamId document);
          if negb (truthy_opt workspaceKey) then resolve []
          else
            identifiers ← extractLinearIssueIdentifiers Linear_parseUrl true
                            (document_id document)
                            (document_mentions document)
                            (default "" workspaceKey);
            schedule {| documentId := Some (document_id document);
                        collectionId := None;
                        teamId := document_teamId document;
                        currentIssueIdentifiers := identifiers |}
      end
  end.

(** [handleCollectionUpdate] *)
Definition handleCollectionUpdate (event : Event) : Async (list Props) :=
  collection ← response (CollectionModel_findByPk (event_collectionId event));
  match collection with
  | None => resolve []
  | Some collection =>
      workspaceKey ← getWorkspaceKey (collection_teamId collection);
      if negb (truthy_opt workspaceKey) then resolve []
      else
        identifiers ← extractLinearIssueIdentifiers Linear_parseUrl false
                        (collection_id collection)
                        (collection_mentions collection)
                        (default "" workspaceKey);
        schedule {| documentId := None;
                    collectionId := Some (collection_id collection);
                    teamId := collection_teamId collection;
                    currentIssueIdentifiers := identifiers |}
  end.

(** [handleDelete] *)
Definition handleDelete (documentId collectionId teamId : option string)
    : Async (list Props) :=
  if negb (truthy_opt teamId) then resolve []
  else
    integration ← response (Linear_getIntegrationForTeam (default "" teamId));
    match integration with
    | None => resolve []
    | Some _ =>
        schedule {| documentId := documentId;
                    collectionId := collectionId;
                    teamId := default "" teamId;
                    currentIssueIdentifiers := [] |}
    end.

(** [LinearBacklinksProcessor.perform] *)
Definition Processor_perform (event : Event) : Async (list Props) :=
  let name := event_name event in
  if String.eqb name "documents.publish"
     || String.eqb name "documents.update.debounced"
  then handleDocumentUpdate event
  else if String.eqb name "documents.delete"
          || String.eqb name "documents.permanent_delete"
  then handleDelete (Some (event_documentId event)) None (event_teamId event)
  else if String.eqb name "collections.update"
  then handleCollectionUpdate event
  else if String.eqb name "collections.delete"
  then handleDelete None (Some (event_collectionId event)) (event_teamId event)
  else resolve [].

End Handlers.

(** ** Vocabulary of the statements *)

(** The issue identifiers of a list of attachments. *)
Definition identifiers_of (attachments : list LinearAttachment) : list string :=
  (λ a, identifier (att_issue a)) <$> attachments.

(** The attachments of a list that are linked to the issue [id]. *)
Definition linked_to (id : string) (attachments : list LinearAttachment)
    : list LinearAttachment :=
  filter (λ a, identifier (att_issue a) = id) attachments.

(** The test of [createAttachment] on a caught error. *)
Definition is_permission_denied (err : thrown) : bool :=
  includes (err_message err) "Forbidden" || includes (err_message err) "403".

(** The test of [deleteAttachment] on a caught error. *)
Definition is_not_found (err : thrown) : bool :=
  includes (err_message err) "Not found" || includes (err_message err) "404".

Definition is_rejected {A} (r : settled A) : bool :=
  match r with Rejected _ => true | Fulfilled _ => false end.

(** The entry that [perform] logs for a rejected operation. *)
Definition failure_entry (documentId collectionId : option string)
    (op : Operation) (reason : thrown) : LogEntry :=
  mkLog Warn "Linear backlink sync operation failed"
    [("documentId", LOpt documentId);
     ("collectionId", LOpt collectionId);
     ("operation", LStr (OperationType_name (op_type op)));
     ("issueIdentifier", LStr (op_identifier op));
     ("error", LStr (err_message reason))].

(** The entry that [createAttachment] logs for a permission error. *)
Definition permission_entry (issueIdentifier : string) : LogEntry :=
  mkLog Warn
    "Linear integration lacks write permission for attachments. Please re-authorize the Linear integration with updated scopes."
    [("issueIdentifier", LStr issueIdentifier)].

(** The summary that [perform] logs after at least one operation. *)
Definition summary_entry (props : Props) (created deleted succeeded failed : nat)
    : LogEntry :=
  mkLog Info "Linear backlinks sync completed"
    [("documentId", LOpt (documentId props));
     ("collectionId", LOpt (collectionId props));
     ("created", LNum created);
     ("deleted", LNum deleted);
     ("succeeded", LNum succeeded);
     ("failed", LNum failed)].

(** The warnings of [perform] for a list of settled operations. *)
Definition failure_entries (documentId collectionId : option string)
    (settledOps : list (Operation * settled unit)) : list LogEntry :=
  omap (λ '(op, result),
          match result with
          | Rejected reason => Some (failure_entry documentId collectionId op reason)
          | Fulfilled _ => None
          end) settledOps.

(** How many promises of a list were rejected, and how many fulfilled. *)
Definition rejections {A} (results : list (settled A)) : nat :=
  length (List.filter is_rejected results).

Definition fulfilments {A} (results : list (settled A)) : nat :=
  length (List.filter (λ r, negb (is_rejected r)) results).

(** The log entries that the calls of the operations write themselves. *)
Definition operation_entries (ops : list Operation) : list LogEntry :=
  concat ((λ op, fst (op_promise op)) <$> ops).

(** The same entries in the order in which the calls complete. *)
Definition completed_entries (completion : list nat) (ops : list Operation)
    : list LogEntry :=
  concat ((λ i, from_option (λ op, fst (op_promise op)) [] (ops !! i))
            <$> completion).

(** How the promises of the operations settle. *)
Definition settlements (ops : list Operation) : list (settled unit) :=
  (λ op, snd (op_promise op)) <$> ops.

(** The attachments of a listing whose issue is resolved. *)
Definition resolved_attachments (nodes : list AttachmentNode)
    : list LinearAttachment :=
  omap (λ n, match node_issue n with
             | Fulfilled (Some issue) =>
                 Some (mkAttachment (node_id n) (node_url n) issue)
             | _ => None
             end) nodes.

(** The entity path as [buildEntityUrl] appends it. *)
Definition rooted (path : string) : string :=
  if startsWith path "/" then path else "/" +:+ path.

(** The entry that [fetchAttachmentsForUrl] logs when the listing fails. *)
Definition listing_warning (url : string) : LogEntry :=
  mkLog Warn "Failed to fetch Linear attachments for URL" [("url", LStr url)].

(** The entry that [createAttachment] logs for an issue that Linear does
    not know. *)
Definition issue_missing_entry (issueIdentifier : string) : LogEntry :=
  mkLog Debug
    ("Linear issue " +:+ issueIdentifier +:+ " not found, skipping attachment")
    [].

(** The entry that [resolveTarget] logs when both ids are given. *)
Definition conflict_warning (documentId collectionId : option string) : LogEntry :=
  mkLog Warn
    "Both documentId and collectionId provided to resolveTarget, using documentId"
    [("documentId", LOpt documentId); ("collectionId", LOpt collectionId)].

(** The entry that [extractLinearIssueIdentifiers] logs when the content
    cannot be read. *)
Definition extraction_warning (isDocument : bool) (entityId : string)
    : LogEntry :=
  mkLog Warn
    ("Failed to extract Linear issue identifiers from "
     +:+ (if isDocument then "document" else "collection"))
    [(if isDocument then "documentId" else "collectionId", LStr entityId)].

(** Whether [Linear.parseUrl] throws on the link of one of the mentions,
    and whether the extraction meets a throw at all: in the helpers that
    read the mentions, or in [Linear.parseUrl]. *)
Definition parseUrl_throws (parseUrl : string → settled (option ParsedUrl))
    (mentions : list Mention) : bool :=
  existsb (λ mention, truthy_opt (href mention)
                      && is_rejected (parseUrl (default "" (href mention))))
          mentions.

Definition extraction_throws (parseUrl : string → settled (option ParsedUrl))
    (mentions : settled (list Mention)) : bool :=
  match mentions with
  | Fulfilled mentions => parseUrl_throws parseUrl mentions
  | Rejected _ => true
  end.

(** The job that [handleDelete] schedules for a delete event. *)
Definition delete_job (event : Event) : Props :=
  if String.eqb (event_name event) "collections.delete"
  then mkProps None (Some (event_collectionId event))
         (default "" (event_teamId event)) []
  else mkProps (Some (event_documentId event)) None
         (default "" (event_teamId event)) [].

Definition is_info (entry : LogEntry) : bool :=
  match log_level entry with Info => true | _ => false end.

(** The entries of a log that report a failed operation. *)
Definition is_failure_report (entry : LogEntry) : bool :=
  String.eqb (log_message entry) "Linear backlink sync operation failed".

(** The event names that [LinearBacklinksProcessor.perform] sends to
    [handleDocumentUpdate], and those it sends to [handleDelete]. *)
Definition is_document_update (name : string) : bool :=
  String.eqb name "documents.publish"
  || String.eqb name "documents.update.debounced".

Definition is_delete (name : string) : bool :=
  String.eqb name "documents.delete"
  || String.eqb name "documents.permanent_delete"
  || String.eqb name "collections.delete".

(** The query parameters of a list that are not named [name]. *)
Definition other_params (name : string) (l : list (string * string))
    : list (string * string) :=
  List.filter (λ p, negb (String.eqb (fst p) name)) l.

(** A job names one target: a document or a collection, not both. *)
Definition one_target (props : Props) : Prop :=
  (is_Some (documentId props) ∧ collectionId props = None)
  ∨ (documentId props = None ∧ is_Some (collectionId props)).

(** The entry that [perform] logs for a target that does not resolve. *)
Definition target_missing_entry (props : Props) : LogEntry :=
  mkLog Debug "Target not found, skipping Linear backlinks sync"
    [("documentId", LOpt (documentId props));
     ("collectionId", LOpt (collectionId props))].

(** The input of [attachmentCreate] that [createAttachment] builds. *)
Definition create_input (env_URL : string) (issue : Issue)
    (title url : string) : AttachmentCreateInput :=
  mkCreateInput (issue_id issue) title OUTLINE_ATTACHMENT_SUBTITLE url
    (env_URL +:+ "/images/icon-192.png").

(** ** Fixtures, after the scenarios of the test suite *)

Definition test_URL : string := "https://app.outline.dev".

Definition test_documents (id : string) : option Document :=
  if String.eqb id "doc-1" then Some (mkDocument "Roadmap" "/doc/roadmap-abc123")
  else if String.eqb id "doc-2" then Some (mkDocument "" "/doc/untitled-def456")
  else None.

Definition test_collections (id : string) : option Collection :=
  if String.eqb id "col-1" then Some (mkCollection "" "/collection/eng-xyz789")
  else None.

Definition test_issue (issueIdentifier : string) : Issue :=
  mkIssue ("linear-issue-" +:+ issueIdentifier) issueIdentifier.

Definition test_attachment (id issueIdentifier : string) : LinearAttachment :=
  mkAttachment id test_URL (test_issue issueIdentifier).

Definition test_node (id issueIdentifier : string) : AttachmentNode :=
  mkNode id test_URL (Fulfilled (Some (test_issue issueIdentifier))).

(** A client that lists [nodes], resolves every issue, and answers the two
    mutations with [created] and [deleted]. *)
Definition test_client (nodes : list AttachmentNode)
    (created deleted : settled bool) : LinearClient :=
  mkClient (λ _, Fulfilled nodes)
           (λ issueIdentifier, Fulfilled (Some (test_issue issueIdentifier)))
           (λ _, created)
           (λ _, deleted).

(** The operations complete in the order in which they start; the scenarios
    have fewer than eight of them. *)
Definition in_order : list nat := seq 0 8.

(** Lookups that find the rows above, and the client of every team. *)
Definition test_Document_findByPk (id : string) : settled (option Document) :=
  Fulfilled (test_documents id).

Definition test_Collection_findByPk (id : string) : settled (option Collection) :=
  Fulfilled (test_collections id).

Definition test_getClientForTeam (client : LinearClient) (teamId : string)
    : settled (option LinearClient) :=
  Fulfilled (Some client).

(** A lookup that fails, as when the database or the network is down. *)
Definition failing_lookup {A} (key : string) : settled (option A) :=
  Rejected (ErrorObj "connection refused").

Definition test_perform (env_URL : string) (client : LinearClient)
    (props : Props) : Async unit :=
  perform PlainURLClass env_URL (test_getClientForTeam client)
    test_Document_findByPk test_Collection_findByPk in_order props.

(** A client that lists no attachment, resolves every issue, and accepts a
    creation under the title [accepted] only. *)
Definition title_client (accepted : string) : LinearClient :=
  mkClient (λ _, Fulfilled [])
           (λ issueIdentifier, Fulfilled (Some (test_issue issueIdentifier)))
           (λ input, if String.eqb (input_title input) accepted
                     then Fulfilled true
                     else Rejected (ErrorObj "unexpected title"))
           (λ _, Fulfilled true).

Definition document_props (desired : list string) : Props :=
  mkProps (Some "doc-1") None "team-1" desired.

(** Fixtures of the listing: one attachment whose issue is undefined. *)
Definition orphan_nodes : list AttachmentNode :=
  [mkNode "orphan" "https://app.outline.dev" (Fulfilled None);
   mkNode "a1" "https://app.outline.dev"
     (Fulfilled (Some (mkIssue "linear-issue-ENG-1" "ENG-1")))].

Definition orphan_client : LinearClient :=
  mkClient (λ _, Fulfilled orphan_nodes)
           (λ issueIdentifier, Fulfilled (Some (test_issue issueIdentifier)))
           (λ _, Fulfilled true)
           (λ _, Fulfilled true).

(** Fixtures of the processor.  [test_parseUrl] stands for
    [Linear.parseUrl] on the issue URLs of the test suite,
    [https://linear.app/<workspace>/issue/<identifier>/<title>]. *)
Definition test_parseUrl (url : string) : settled (option ParsedUrl) :=
  match split_on "/" url with
  | _ :: _ :: hostname :: workspaceKey :: kind :: id :: _ =>
      if String.eqb hostname "linear.app" && String.eqb kind "issue"
      then Fulfilled (Some (mkParsedUrl (Some id) workspaceKey))
      else Fulfilled None
  | _ => Fulfilled None
  end.

(** A [Linear.parseUrl] that throws on one URL. *)
Definition throwing_parseUrl (url : string) : settled (option ParsedUrl) :=
  if String.eqb url "https://linear.app/otherteam/issue/OTHER-200/title"
  then Rejected (ErrorObj "Invalid URL")
  else test_parseUrl url.

Definition test_integrations (teamId : string)
    : settled (option Integration) :=
  if String.eqb teamId "team-1"
  then Fulfilled (Some (mkIntegration "integration-1" (Some "myteam")))
  else Fulfilled None.

Definition test_mentions : list Mention :=
  [mkMention (Some "https://linear.app/myteam/issue/ENG-100/title");
   mkMention None;
   mkMention (Some "https://linear.app/otherteam/issue/OTHER-200/title");
   mkMention (Some "https://linear.app/myteam/issue/ENG-200/title");
   mkMention (Some "https://linear.app/myteam/issue/ENG-100/again")].

Definition test_document_models (id : string)
    : settled (option DocumentModel) :=
  if String.eqb id "doc-1"
  then Fulfilled (Some (mkDocumentModel "doc-1" "team-1" (Some "2024-01-01")
                          (Fulfilled test_mentions)))
  else if String.eqb id "doc-draft"
  then Fulfilled (Some (mkDocumentModel "doc-draft" "team-1" None
                          (Fulfilled test_mentions)))
  else if String.eqb id "doc-broken"
  then Fulfilled (Some (mkDocumentModel "doc-broken" "team-1" (Some "2024-01-01")
                          (Rejected (ErrorObj "Invalid content"))))
  else Fulfilled None.

Definition test_collection_models (id : string)
    : settled (option CollectionModel) :=
  if String.eqb id "col-1"
  then Fulfilled (Some (mkCollectionModel "col-1" "team-1"
                          (Fulfilled test_mentions)))
  else Fulfilled None.

(** A queue that takes every job. *)
Definition test_schedule (props : Props) : settled unit := Fulfilled tt.

Definition test_process (event : Event) : Async (list Props) :=
  Processor_perform test_parseUrl test_integrations test_document_models
    test_collection_models test_schedule event.

(** * Properties *)

(** ** Strings and URLs at work *)

Example includes_forbidden : includes "403 Forbidden" "Forbidden" = true.
Proof. reflexivity. Qed.

Example plain_parse_doc :
  plain_parse "https://app.outline.dev/doc/a?x=1#top"
  = Some (mkPlainURL "https" "app.outline.dev" "/doc/a" (Some [("x", "1")])
            (Some "top")).
Proof. reflexivity. Qed.

(** ** Awaiting *)

Lemma bind_fulfilled {A B} (l : list LogEntry) (a : A) (k : A → Async B) :
  (l, Fulfilled a) ≫= k = ((l ++ fst (k a))%list, snd (k a)).
Proof. unfold mbind, Async_bind, await. by destruct (k a). Qed.

Lemma bind_rejected {A B} (l : list LogEntry) (e : thrown) (k : A → Async B) :
  (l, Rejected e) ≫= k = (l, Rejected e).
Proof. done. Qed.

(** ** The diff *)

Lemma reconcile_unfold desired existing :
  reconcile desired existing
  = (filter (λ id, id ∉ identifiers_of existing) desired,
     filter (λ a, identifier (att_issue a) ∉ desired) existing).
Proof.
  unfold reconcile, identifiers_of. f_equal.
  - apply list_filter_iff. intros id. by rewrite elem_of_list_to_set.
  - apply list_filter_iff. intros a. by rewrite elem_of_list_to_set.
Qed.

Lemma toCreate_unfold desired existing :
  toCreate desired existing = filter (λ id, id ∉ identifiers_of existing) desired.
Proof. unfold toCreate. by rewrite reconcile_unfold. Qed.

Lemma toDelete_unfold desired existing :
  toDelete desired existing
  = filter (λ a, identifier (att_issue a) ∉ desired) existing.
Proof. unfold toDelete. by rewrite reconcile_unfold. Qed.

Lemma elem_of_toCreate desired existing id :
  id ∈ toCreate desired existing ↔ id ∈ desired ∧ id ∉ identifiers_of existing.
Proof. rewrite toCreate_unfold, list_elem_of_filter. tauto. Qed.

Lemma elem_of_toDelete desired existing a :
  a ∈ toDelete desired existing
  ↔ a ∈ existing ∧ identifier (att_issue a) ∉ desired.
Proof. rewrite toDelete_unfold, list_elem_of_filter. tauto. Qed.

Lemma elem_of_identifiers_of existing id :
  id ∈ identifiers_of existing
  ↔ ∃ a, a ∈ existing ∧ identifier (att_issue a) = id.
Proof.
  unfold identifiers_of. rewrite list_elem_of_fmap. split.
  - intros (a & -> & Ha). eauto.
  - intros (a & Ha & <-). eauto.
Qed.

(** C1. Diff correctness: [toCreate] holds exactly the desired identifiers
    that no existing attachment is linked to, so it shares no identifier with
    the existing attachments, and [toDelete] holds exactly the existing
    attachments whose issue identifier is not desired. *)
Theorem reconcile_diff_correct (desired : list string)
    (existing : list LinearAttachment) :
  (∀ id, id ∈ toCreate desired existing
         ↔ id ∈ desired ∧ id ∉ identifiers_of existing)
  ∧ Forall (λ id, id ∉ identifiers_of existing) (toCreate desired existing)
  ∧ (∀ a, a ∈ toDelete desired existing
          ↔ a ∈ existing ∧ identifier (att_issue a) ∉ desired).
Proof.
  split; [|split].
  - intros id. apply elem_of_toCreate.
  - apply Forall_forall. intros id Hin. by apply elem_of_toCreate in Hin as [_ ?].
  - intros a. apply elem_of_toDelete.
Qed.

(** The number of entries of [toCreate] for an identifier is the number of
    its occurrences in the desired list, or none when an existing attachment
    is linked to it. *)
Lemma toCreate_occurrences desired existing id :
  length (filter (λ x, x = id) (toCreate desired existing))
  = if bool_decide (id ∈ identifiers_of existing) then 0
    else length (filter (λ x, x = id) desired).
Proof.
  rewrite toCreate_unfold. induction desired as [|x desired IH]; simpl.
  - by case_bool_decide.
  - rewrite !filter_cons. destruct (decide (x = id)) as [->|Hne].
    + case_bool_decide as Hex.
      * rewrite decide_False by tauto. apply IH.
      * rewrite decide_True by done. rewrite filter_cons_True by done.
        simpl. by rewrite IH.
    + destruct (decide (x ∉ identifiers_of existing)).
      * rewrite filter_cons_False by done. apply IH.
      * apply IH.
Qed.

(** C2, as amended. A desired list without duplicates gives a [toCreate]
    without duplicates: at most one creation per distinct identifier.  The
    task itself removes no duplicate ([toCreate_occurrences]). *)
Theorem toCreate_NoDup (desired : list string) (existing : list LinearAttachment) :
  NoDup desired → NoDup (toCreate desired existing).
Proof. intros Hnd. rewrite toCreate_unfold. by apply NoDup_filter. Qed.

Lemma toCreate_NoDup_witness :
  NoDup ["ENG-100"; "ENG-200"]
  ∧ NoDup (toCreate ["ENG-100"; "ENG-200"] [test_attachment "a1" "ENG-200"]).
Proof.
  assert (Hnd : NoDup ["ENG-100"; "ENG-200"]).
  { apply (bool_decide_unpack _). reflexivity. }
  split; [exact Hnd | exact (toCreate_NoDup _ _ Hnd)].
Defined.

(** The processor hands over each identifier once. *)
Lemma Set_values_from (seen identifiers : list string) :
  NoDup seen →
  NoDup (fold_left Set_add identifiers seen)
  ∧ ∀ x, x ∈ fold_left Set_add identifiers seen ↔ x ∈ seen ∨ x ∈ identifiers.
Proof.
  revert seen. induction identifiers as [|y identifiers IH]; intros seen Hnd.
  - split; [done|]. intros x. rewrite elem_of_nil. tauto.
  - cbn [fold_left]. unfold Set_add at 2 4. case_bool_decide as Hy.
    + destruct (IH seen Hnd) as [Hnd' Hin]. split; [done|].
      intros x. rewrite Hin, elem_of_cons. split; [tauto|].
      intros [?|[->|?]]; tauto.
    + assert (Hnd1 : NoDup (seen ++ [y])).
      { apply NoDup_app. split; [done|]. split; [|apply NoDup_singleton].
        intros x Hx Hxy. apply list_elem_of_singleton in Hxy as ->. done. }
      destruct (IH _ Hnd1) as [Hnd' Hin]. split; [done|].
      intros x. rewrite Hin, elem_of_app, list_elem_of_singleton, elem_of_cons.
      tauto.
Qed.

Lemma Set_values_NoDup identifiers : NoDup (Set_values identifiers).
Proof. apply Set_values_from, NoDup_nil_2. Qed.

Lemma elem_of_Set_values identifiers x :
  x ∈ Set_values identifiers ↔ x ∈ identifiers.
Proof.
  unfold Set_values.
  rewrite (proj2 (Set_values_from [] identifiers (NoDup_nil_2)) x).
  rewrite elem_of_nil. tauto.
Qed.

(** The loop writes no log. *)
Lemma collect_identifiers_log parseUrl mentions workspaceKey identifiers :
  fst (collect_identifiers parseUrl mentions workspaceKey identifiers) = [].
Proof.
  revert identifiers. induction mentions as [|mention rest IH]; intros identifiers.
  - done.
  - cbn [collect_identifiers]. destruct (negb _); [apply IH|].
    unfold mbind, Async_bind, await, call.
    destruct (parseUrl _) as [[parsed|]|e]; [| |done].
    + destruct (_ && _).
      * specialize (IH (identifiers ++ [default "" (parsed_id parsed)])%list).
        destruct (collect_identifiers _ _ _ _); simpl in *. by subst.
      * specialize (IH identifiers).
        destruct (collect_identifiers _ _ _ _); simpl in *. by subst.
    + specialize (IH identifiers).
      destruct (collect_identifiers _ _ _ _); simpl in *. by subst.
Qed.

(** [extractLinearIssueIdentifiers] never throws: what the loop collects is
    returned once each, and a throw inside the [try] gives the warning and
    the empty list. *)
Lemma extractLinearIssueIdentifiers_cases parseUrl isDocument entityId mentions
    workspaceKey :
  extractLinearIssueIdentifiers parseUrl isDocument entityId mentions workspaceKey
  = match mentions with
    | Fulfilled mentions =>
        match snd (collect_identifiers parseUrl mentions workspaceKey []) with
        | Fulfilled identifiers => ([], Fulfilled (Set_values identifiers))
        | Rejected _ => ([extraction_warning isDocument entityId], Fulfilled [])
        end
    | Rejected _ => ([extraction_warning isDocument entityId], Fulfilled [])
    end.
Proof.
  unfold extractLinearIssueIdentifiers.
  unfold mbind, Async_bind, await, call, try_catch, Logger, resolve.
  destruct mentions as [mentions|e]; [|done].
  pose proof (collect_identifiers_log parseUrl mentions workspaceKey []) as Hlog.
  destruct (collect_identifiers parseUrl mentions workspaceKey [])
    as [entries [identifiers|e]]; simpl in Hlog; subst entries; done.
Qed.

Lemma extractLinearIssueIdentifiers_NoDup parseUrl isDocument entityId mentions
    workspaceKey :
  ∃ entries identifiers,
    extractLinearIssueIdentifiers parseUrl isDocument entityId mentions workspaceKey
    = (entries, Fulfilled identifiers)
    ∧ NoDup identifiers.
Proof.
  rewrite extractLinearIssueIdentifiers_cases.
  destruct mentions as [mentions|e].
  - destruct (snd _) as [identifiers|e].
    + do 2 eexists. split; [done|]. apply Set_values_NoDup.
    + do 2 eexists. split; [done|]. apply NoDup_nil_2.
  - do 2 eexists. split; [done|]. apply NoDup_nil_2.
Qed.

(** C2, counterexample. An identifier listed twice is created twice: the set
    [desiredIdentifiers] serves the deletions only, and the creations filter
    the list as it came. *)
Lemma toCreate_keeps_duplicates :
  toCreate ["ENG-456"; "ENG-456"] [] = ["ENG-456"; "ENG-456"]
  ∧ test_perform test_URL (test_client [] (Fulfilled true) (Fulfilled true))
      (document_props ["ENG-456"; "ENG-456"])
    = ([summary_entry (document_props ["ENG-456"; "ENG-456"]) 2 0 2 0],
       Fulfilled tt).
Proof. split; vm_compute; reflexivity. Qed.

(** ** Repeated runs and duplicate attachments *)

Lemma filter_none {A} (P : A → Prop) `{!∀ x, Decision (P x)} (l : list A) :
  (∀ x, x ∈ l → ¬ P x) → filter P l = [].
Proof.
  induction l as [|x l IH]; intros Hall; [done|].
  rewrite filter_cons_False.
  - apply IH. intros y Hy. apply Hall. by right.
  - apply Hall. by left.
Qed.

Lemma reconcile_nothing_to_do desired existing :
  (∀ id, id ∈ identifiers_of existing ↔ id ∈ desired) →
  reconcile desired existing = ([], []).
Proof.
  intros Hsame. rewrite reconcile_unfold. f_equal.
  - apply filter_none. intros id Hid Hnot. by apply Hnot, Hsame.
  - apply filter_none. intros a Ha Hnot. apply Hnot, Hsame.
    apply elem_of_identifiers_of. eauto.
Qed.

(** What the remote holds after a run whose operations all took effect:
    the attachments that were not deleted, and one per entry of [toCreate]. *)
Lemma remote_after_first_run desired existing created :
  identifiers_of created = toCreate desired existing →
  ∀ id, id ∈ identifiers_of
               (filter (λ a, a ∉ toDelete desired existing) existing ++ created)
        ↔ id ∈ desired.
Proof.
  intros Hcreated id. unfold identifiers_of at 1. rewrite fmap_app.
  fold (identifiers_of created). rewrite Hcreated, elem_of_app.
  rewrite elem_of_toCreate, list_elem_of_fmap. split.
  - intros [(a & -> & Ha)|[Hid _]]; [|done].
    apply list_elem_of_filter in Ha as [Hkeep Ha].
    destruct (decide (identifier (att_issue a) ∈ desired)) as [|Hnot]; [done|].
    destruct Hkeep. apply elem_of_toDelete. done.
  - intros Hid.
    destruct (decide (id ∈ identifiers_of existing)) as [Hex|Hnex]; [|by right].
    left. apply elem_of_identifiers_of in Hex as (a & Ha & <-).
    exists a. split; [done|]. apply list_elem_of_filter. split; [|done].
    rewrite elem_of_toDelete. tauto.
Qed.

(** With no promise, no call completes. *)
Lemma completed_nothing {A} (completion : list nat) :
  concat (map (λ i, from_option fst [] (@nil (Async A) !! i)) completion) = [].
Proof. induction completion as [|i completion IH]; [done|]. simpl. exact IH. Qed.

(** C4. Idempotence: when the existing attachments carry exactly the desired
    identifiers, as they do after a run whose operations all took effect
    ([remote_after_first_run]), the diff is empty on both sides and the run
    performs no operation and writes no log entry. *)
Theorem second_run_is_noop (env_URL : string) (completion : list nat)
    (props : Props) (client : LinearClient) (title attachmentUrl : string)
    (existing : list LinearAttachment) :
  (∀ id, id ∈ identifiers_of existing ↔ id ∈ currentIssueIdentifiers props) →
  toCreate (currentIssueIdentifiers props) existing = []
  ∧ toDelete (currentIssueIdentifiers props) existing = []
  ∧ sync env_URL completion props client title attachmentUrl existing
    = ([], Fulfilled tt).
Proof.
  intros Hsame. apply reconcile_nothing_to_do in Hsame.
  unfold toCreate, toDelete, sync. rewrite Hsame.
  split; [done|]. split; [done|].
  cbn [operations map app]. unfold mbind, Async_bind, allSettled, await.
  cbn [map zip count_results length Nat.ltb Nat.leb resolve].
  rewrite (completed_nothing completion). reflexivity.
Qed.

Lemma second_run_is_noop_witness :
  (∀ id, id ∈ identifiers_of [test_attachment "existing-attachment" "ENG-456"]
         ↔ id ∈ currentIssueIdentifiers (document_props ["ENG-456"]))
  ∧ sync test_URL in_order (document_props ["ENG-456"])
      (test_client [] (Fulfilled true) (Fulfilled true)) "Roadmap"
      "https://app.outline.dev/doc/roadmap-abc123?ref=outline-backlink"
      [test_attachment "existing-attachment" "ENG-456"]
    = ([], Fulfilled tt).
Proof.
  assert (Hsame : ∀ id,
    id ∈ identifiers_of [test_attachment "existing-attachment" "ENG-456"]
    ↔ id ∈ currentIssueIdentifiers (document_props ["ENG-456"])).
  { intros id. simpl. reflexivity. }
  split; [exact Hsame|].
  exact (proj2 (proj2 (second_run_is_noop test_URL in_order
                         (document_props ["ENG-456"])
                         (test_client [] (Fulfilled true) (Fulfilled true))
                         "Roadmap"
                         "https://app.outline.dev/doc/roadmap-abc123?ref=outline-backlink"
                         [test_attachment "existing-attachment" "ENG-456"] Hsame))).
Defined.

Lemma linked_to_toDelete_undesired desired existing id :
  id ∉ desired →
  linked_to id (toDelete desired existing) = linked_to id existing.
Proof.
  intros Hnot. rewrite toDelete_unfold. unfold linked_to.
  rewrite list_filter_filter. apply list_filter_iff.
  intros a. split; [tauto|]. intros ->. done.
Qed.

Lemma linked_to_toDelete_desired desired existing id :
  id ∈ desired → linked_to id (toDelete desired existing) = [].
Proof.
  intros Hin. unfold linked_to. apply filter_none.
  intros a Ha Hid. apply elem_of_toDelete in Ha as [_ Hnot].
  apply Hnot. by rewrite Hid.
Qed.

(** C7. Duplicate attachments: when two attachments at different positions
    of the existing list are linked to the same issue, both of them, and
    every other attachment of that issue, are in [toDelete] if the issue is
    not desired; if it is desired, it is not in [toCreate] and no attachment
    of the issue is in [toDelete]. *)
Theorem duplicate_attachments (desired : list string)
    (existing : list LinearAttachment) (id : string) (i j : nat)
    (a1 a2 : LinearAttachment) :
  existing !! i = Some a1 → existing !! j = Some a2 → i ≠ j →
  identifier (att_issue a1) = id → identifier (att_issue a2) = id →
  (id ∉ desired →
     a1 ∈ toDelete desired existing ∧ a2 ∈ toDelete desired existing
     ∧ linked_to id (toDelete desired existing) = linked_to id existing)
  ∧ (id ∈ desired →
     (id ∉ toCreate desired existing)
     ∧ linked_to id (toDelete desired existing) = []).
Proof.
  intros Hi Hj _ Hid1 Hid2.
  apply list_elem_of_lookup_2 in Hi. apply list_elem_of_lookup_2 in Hj.
  split.
  - intros Hnot. rewrite !elem_of_toDelete, Hid1, Hid2.
    auto using linked_to_toDelete_undesired.
  - intros Hin. split; [|by apply linked_to_toDelete_desired].
    rewrite elem_of_toCreate. intros [_ Hnex]. apply Hnex.
    apply elem_of_identifiers_of. eauto.
Qed.

Lemma duplicate_attachments_witness :
  (linked_to "ENG-456"
     (toDelete ["ENG-1"] [test_attachment "a1" "ENG-456";
                          test_attachment "a2" "ENG-456"])
   = [test_attachment "a1" "ENG-456"; test_attachment "a2" "ENG-456"])
  ∧ (("ENG-456" ∉ toCreate ["ENG-456"] [test_attachment "a1" "ENG-456";
                                         test_attachment "a2" "ENG-456"])
     ∧ linked_to "ENG-456"
         (toDelete ["ENG-456"] [test_attachment "a1" "ENG-456";
                                test_attachment "a2" "ENG-456"]) = []).
Proof.
  pose (existing := [test_attachment "a1" "ENG-456";
                     test_attachment "a2" "ENG-456"]).
  assert (Hne : 0 ≠ 1) by discriminate.
  split.
  - assert (Hnot : "ENG-456" ∉ ["ENG-1"]).
    { apply (bool_decide_unpack _). reflexivity. }
    exact (proj2 (proj2 (proj1
      (duplicate_attachments ["ENG-1"] existing "ENG-456" 0 1 _ _
         eq_refl eq_refl Hne eq_refl eq_refl) Hnot))).
  - assert (Hin : "ENG-456" ∈ ["ENG-456"]) by left.
    exact (proj2
      (duplicate_attachments ["ENG-456"] existing "ENG-456" 0 1 _ _
         eq_refl eq_refl Hne eq_refl eq_refl) Hin).
Defined.

(** ** Settlement of the operations *)

Lemma counts_Fulfilled {A} (a : A) (results : list (settled A)) :
  fulfilments (Fulfilled a :: results) = S (fulfilments results)
  ∧ rejections (Fulfilled a :: results) = rejections results.
Proof. done. Qed.

Lemma counts_Rejected {A} (e : thrown) (results : list (settled A)) :
  fulfilments (Rejected e :: results) = fulfilments results
  ∧ rejections (Rejected e :: results) = S (rejections results).
Proof. done. Qed.

Lemma count_results_spec documentId collectionId settledOps succeeded failed :
  count_results documentId collectionId settledOps succeeded failed
  = (failure_entries documentId collectionId settledOps,
     Fulfilled (succeeded + fulfilments (snd <$> settledOps),
                failed + rejections (snd <$> settledOps))).
Proof.
  revert succeeded failed.
  induction settledOps as [|[op [[]|reason]] rest IH]; intros succeeded failed.
  - cbn. by rewrite !Nat.add_0_r.
  - cbn [count_results]. rewrite IH, fmap_cons. cbn [snd].
    destruct (counts_Fulfilled () (snd <$> rest)) as [-> ->].
    by rewrite Nat.add_succ_r.
  - cbn [count_results]. unfold mbind, Async_bind, await, Logger.
    rewrite IH, fmap_cons. cbn [snd].
    destruct (counts_Rejected reason (snd <$> rest)) as [-> ->].
    by rewrite Nat.add_succ_r.
Qed.

Lemma settled_counts {A} (results : list (settled A)) :
  fulfilments results + rejections results = length results.
Proof.
  unfold fulfilments, rejections.
  induction results as [|[a|e] results IH]; simpl; lia.
Qed.

Lemma zip_settlements ops :
  snd <$> zip ops (settlements ops) = settlements ops.
Proof.
  apply snd_zip. unfold settlements. by rewrite length_fmap.
Qed.

Lemma map_snd_op_promise ops : map snd (map op_promise ops) = settlements ops.
Proof. rewrite map_map. reflexivity. Qed.

Lemma map_fst_op_promise completion ops :
  concat (map (λ i, from_option fst [] (map op_promise ops !! i)) completion)
  = completed_entries completion ops.
Proof.
  unfold completed_entries. f_equal. apply map_ext. intros i.
  change (map op_promise ops) with (op_promise <$> ops).
  rewrite list_lookup_fmap. by destruct (ops !! i).
Qed.

Lemma elem_of_concat {A} (x : A) (ls : list (list A)) :
  x ∈ concat ls ↔ ∃ l, x ∈ l ∧ l ∈ ls.
Proof.
  induction ls as [|l' ls IH]; cbn [concat].
  - split; [by intros ?%elem_of_nil|]. by intros (l & _ & ?%elem_of_nil).
  - rewrite elem_of_app, IH. split.
    + intros [?|(l & ? & ?)]; [exists l'|exists l]; split; try done;
        [left|by right].
    + intros (l & Hx & [-> |Hl]%elem_of_cons); [by left|]. right. eauto.
Qed.

(** Every entry of the calls is an entry of one of the operations. *)
Lemma completed_entries_sub completion ops entry :
  entry ∈ completed_entries completion ops → entry ∈ operation_entries ops.
Proof.
  unfold completed_entries, operation_entries.
  rewrite !elem_of_concat. intros (l & Hentry & Hl).
  apply list_elem_of_fmap in Hl as (i & -> & _).
  destruct (ops !! i) as [op|] eqn:Hop; [|by apply elem_of_nil in Hentry].
  exists (fst (op_promise op)). split; [done|].
  apply list_elem_of_fmap. exists op. split; [done|].
  by apply list_elem_of_lookup_2 in Hop.
Qed.

Lemma completed_entries_nil completion ops :
  operation_entries ops = [] → completed_entries completion ops = [].
Proof.
  intros Hnone. destruct (completed_entries completion ops) as [|entry l] eqn:Hc;
    [done|].
  assert (Hin : entry ∈ completed_entries completion ops) by (rewrite Hc; left).
  apply completed_entries_sub in Hin. rewrite Hnone in Hin.
  by apply elem_of_nil in Hin.
Qed.

(** When every operation completes once, the entries of the calls are those
    of the operations in another order. *)
Lemma completed_entries_Permutation completion ops :
  completion ≡ₚ seq 0 (length ops) →
  completed_entries completion ops ≡ₚ operation_entries ops.
Proof.
  intros Hperm. unfold completed_entries, operation_entries.
  rewrite Hperm. clear Hperm completion.
  assert (Hseq : ∀ l : list Operation,
    (λ i, from_option (λ op, fst (op_promise op)) [] ((l ++ ops)%list !! i))
      <$> seq (length l) (length ops)
    = (λ op, fst (op_promise op)) <$> ops).
  { induction ops as [|op ops IH]; intros l; [done|].
    cbn [length seq fmap list_fmap].
    rewrite list_lookup_middle by done. cbn [from_option]. f_equal.
    specialize (IH (l ++ [op])%list).
    rewrite length_app, Nat.add_1_r in IH. rewrite <- IH.
    apply list_fmap_ext. intros _ i _. by rewrite <- app_assoc. }
  specialize (Hseq []). cbn [length app] in Hseq. by rewrite Hseq.
Qed.

(** [perform] from the diff on never rejects: it writes the entries of the
    calls, a warning for each rejected operation, and, when there was an
    operation, the summary, which counts every operation once. *)
Lemma sync_spec env_URL completion props client title attachmentUrl existing :
  let created := toCreate (currentIssueIdentifiers props) existing in
  let deleted := toDelete (currentIssueIdentifiers props) existing in
  let ops := operations env_URL client (or_else title "Untitled") attachmentUrl
               created deleted in
  sync env_URL completion props client title attachmentUrl existing
  = ((completed_entries completion ops
      ++ failure_entries (documentId props) (collectionId props)
           (zip ops (settlements ops))
      ++ if (0 <? length ops)%nat
         then [summary_entry props (length created) (length deleted)
                 (fulfilments (settlements ops)) (rejections (settlements ops))]
         else [])%list,
     Fulfilled tt).
Proof.
  intros created deleted ops. unfold sync.
  assert (Hdiff : reconcile (currentIssueIdentifiers props) existing
                  = (created, deleted)) by apply surjective_pairing.
  rewrite Hdiff. fold ops.
  unfold mbind, Async_bind, allSettled, await.
  rewrite map_snd_op_promise, map_fst_op_promise.
  rewrite count_results_spec, zip_settlements.
  destruct (0 <? length ops)%nat; simpl.
  - reflexivity.
  - by rewrite !app_nil_r.
Qed.

(** ** The two calls *)

Lemma deleteAttachment_rejected client attachmentId reason :
  client_deleteAttachment client attachmentId = Rejected reason →
  deleteAttachment client attachmentId
  = if is_not_found reason then ([], Fulfilled tt) else ([], Rejected reason).
Proof.
  intros Hcall. unfold deleteAttachment, is_not_found.
  unfold mbind, Async_bind, await, response, try_catch. rewrite Hcall.
  by destruct (_ || _).
Qed.

Lemma createAttachment_rejected env_URL client issueIdentifier title url issue reason :
  client_issue client issueIdentifier = Fulfilled (Some issue) →
  client_createAttachment client
    (mkCreateInput (issue_id issue) title OUTLINE_ATTACHMENT_SUBTITLE url
       (env_URL +:+ "/images/icon-192.png")) = Rejected reason →
  createAttachment env_URL client issueIdentifier title url
  = if is_permission_denied reason
    then ([permission_entry issueIdentifier], Fulfilled tt)
    else ([], Rejected reason).
Proof.
  intros Hissue Hcall. unfold createAttachment, is_permission_denied.
  unfold mbind, Async_bind, await, response, try_catch.
  rewrite Hissue, Hcall. by destruct (_ || _).
Qed.

(** C6. Idempotent delete: when the deletion call fails with an error whose
    message carries [Not found] or [404], [deleteAttachment] fulfils and logs
    nothing, and the loop of [perform] counts the operation as succeeded,
    with no failure entry. *)
Theorem delete_not_found_is_success (client : LinearClient)
    (attachmentId : string) (reason : thrown) :
  client_deleteAttachment client attachmentId = Rejected reason →
  is_not_found reason = true →
  deleteAttachment client attachmentId = ([], Fulfilled tt)
  ∧ ∀ documentId collectionId op rest succeeded failed,
      op_promise op = deleteAttachment client attachmentId →
      count_results documentId collectionId
        ((op, snd (op_promise op)) :: rest) succeeded failed
      = count_results documentId collectionId rest (S succeeded) failed.
Proof.
  intros Hcall Hnf.
  assert (Hdel : deleteAttachment client attachmentId = ([], Fulfilled tt)).
  { rewrite (deleteAttachment_rejected _ _ _ Hcall). by rewrite Hnf. }
  split; [done|].
  intros documentId collectionId op rest succeeded failed Hop.
  by rewrite Hop, Hdel.
Qed.

Lemma delete_not_found_is_success_witness :
  test_perform test_URL
    (test_client [test_node "attachment-to-delete" "ENG-456"]
       (Fulfilled true) (Rejected (ErrorObj "Not found")))
    (document_props [])
  = ([summary_entry (document_props []) 0 1 1 0], Fulfilled tt)
  ∧ deleteAttachment
      (test_client [test_node "attachment-to-delete" "ENG-456"]
         (Fulfilled true) (Rejected (ErrorObj "Not found")))
      "attachment-to-delete"
    = ([], Fulfilled tt).
Proof.
  split; [vm_compute; reflexivity|].
  exact (proj1 (delete_not_found_is_success
                  (test_client [test_node "attachment-to-delete" "ENG-456"]
                     (Fulfilled true) (Rejected (ErrorObj "Not found")))
                  "attachment-to-delete" (ErrorObj "Not found")
                  eq_refl eq_refl)).
Defined.

(** C3, as amended. A permission error (a message that carries [Forbidden]
    or [403]) is classified by [createAttachment] only.  On a creation it is
    logged as a warning and swallowed: the promise fulfils and the loop of
    [perform] counts the operation as succeeded.  [deleteAttachment] has no
    such case: unless the message also carries the not-found signal, the
    error is re-thrown, the promise rejects, and the loop logs the failure as
    a warning and counts the operation as failed.  In both cases the run
    itself fulfils. *)
Theorem permission_denied_outcomes (env_URL : string) (client : LinearClient)
    (reason : thrown) :
  is_permission_denied reason = true →
  (∀ issueIdentifier title url issue,
     client_issue client issueIdentifier = Fulfilled (Some issue) →
     client_createAttachment client
       (mkCreateInput (issue_id issue) title OUTLINE_ATTACHMENT_SUBTITLE url
          (env_URL +:+ "/images/icon-192.png")) = Rejected reason →
     createAttachment env_URL client issueIdentifier title url
     = ([permission_entry issueIdentifier], Fulfilled tt)
     ∧ ∀ documentId collectionId op rest succeeded failed,
         op_promise op = createAttachment env_URL client issueIdentifier title url →
         count_results documentId collectionId
           ((op, snd (op_promise op)) :: rest) succeeded failed
         = count_results documentId collectionId rest (S succeeded) failed)
  ∧ (∀ attachmentId,
       client_deleteAttachment client attachmentId = Rejected reason →
       is_not_found reason = false →
       deleteAttachment client attachmentId = ([], Rejected reason)
       ∧ ∀ documentId collectionId op rest succeeded failed,
           op_promise op = deleteAttachment client attachmentId →
           count_results documentId collectionId
             ((op, snd (op_promise op)) :: rest) succeeded failed
           = (failure_entry documentId collectionId op reason
                :: fst (count_results documentId collectionId rest
                          succeeded (S failed)),
              snd (count_results documentId collectionId rest
                     succeeded (S failed))))
  ∧ (∀ completion props title attachmentUrl existing,
       snd (sync env_URL completion props client title attachmentUrl existing)
       = Fulfilled tt).
Proof.
  intros Hdenied. split; [|split].
  - intros issueIdentifier title url issue Hissue Hcall.
    assert (Hcreate : createAttachment env_URL client issueIdentifier title url
                      = ([permission_entry issueIdentifier], Fulfilled tt)).
    { rewrite (createAttachment_rejected _ _ _ _ _ _ _ Hissue Hcall).
      by rewrite Hdenied. }
    split; [done|]. intros documentId collectionId op rest succeeded failed Hop.
    by rewrite Hop, Hcreate.
  - intros attachmentId Hcall Hnf.
    assert (Hdelete : deleteAttachment client attachmentId = ([], Rejected reason)).
    { rewrite (deleteAttachment_rejected _ _ _ Hcall). by rewrite Hnf. }
    split; [done|]. intros documentId collectionId op rest succeeded failed Hop.
    rewrite Hop, Hdelete. cbn [snd count_results].
    unfold mbind, Async_bind, await, Logger.
    by destruct (count_results _ _ rest _ _).
  - intros completion props title attachmentUrl existing. by rewrite sync_spec.
Qed.

Lemma permission_denied_outcomes_witness :
  is_permission_denied (ErrorObj "Forbidden") = true
  ∧ createAttachment test_URL
      (test_client [] (Rejected (ErrorObj "Forbidden"))
         (Rejected (ErrorObj "Forbidden")))
      "ENG-456" "Roadmap" "https://app.outline.dev/doc/roadmap-abc123?ref=outline-backlink"
    = ([permission_entry "ENG-456"], Fulfilled tt)
  ∧ deleteAttachment
      (test_client [] (Rejected (ErrorObj "Forbidden"))
         (Rejected (ErrorObj "Forbidden")))
      "attachment-to-delete"
    = ([], Rejected (ErrorObj "Forbidden")).
Proof.
  pose (client := test_client [] (Rejected (ErrorObj "Forbidden"))
                    (Rejected (ErrorObj "Forbidden"))).
  pose proof (permission_denied_outcomes test_URL client (ErrorObj "Forbidden")
                eq_refl) as (Hcreate & Hdelete & _).
  split; [reflexivity|]. split.
  - exact (proj1 (Hcreate "ENG-456" "Roadmap"
             "https://app.outline.dev/doc/roadmap-abc123?ref=outline-backlink"
             (test_issue "ENG-456") eq_refl eq_refl)).
  - exact (proj1 (Hdelete "attachment-to-delete" eq_refl eq_refl)).
Defined.

(** C3, counterexample. The scenario of the test on a 403: the creation
    fails with [Forbidden]; the run fulfils, the permission warning is
    logged, and the summary counts one succeeded and no failed operation. *)
Lemma forbidden_create_counts_as_succeeded :
  test_perform test_URL
    (test_client [] (Rejected (ErrorObj "Forbidden")) (Fulfilled true))
    (document_props ["ENG-456"])
  = ([permission_entry "ENG-456";
      summary_entry (document_props ["ENG-456"]) 1 0 1 0],
     Fulfilled tt).
Proof. vm_compute. reflexivity. Qed.

(** The same error on a deletion: the run fulfils, the loop logs the
    failure, and the summary counts one failed operation. *)
Example forbidden_delete_counts_as_failed :
  test_perform test_URL
    (test_client [test_node "attachment-to-delete" "ENG-456"]
       (Fulfilled true) (Rejected (ErrorObj "Forbidden")))
    (document_props [])
  = ([mkLog Warn "Linear backlink sync operation failed"
        [("documentId", LOpt (Some "doc-1")); ("collectionId", LOpt None);
         ("operation", LStr "delete"); ("issueIdentifier", LStr "ENG-456");
         ("error", LStr "Forbidden")];
      summary_entry (document_props []) 0 1 0 1],
     Fulfilled tt).
Proof. vm_compute. reflexivity. Qed.

(** ** An answer with [success = false] *)

(** X1. A creation that the service answers with [success = false] throws
    inside the [try] block, so the same handler classifies it by the text of
    its message, which ends with the issue identifier: when that text holds
    [Forbidden] or [403] the failure is logged as a permission warning and
    the promise fulfils; otherwise the promise rejects with the error. *)
Theorem create_success_false (env_URL : string) (client : LinearClient)
    (issueIdentifier title url : string) (issue : Issue) :
  client_issue client issueIdentifier = Fulfilled (Some issue) →
  client_createAttachment client
    (mkCreateInput (issue_id issue) title OUTLINE_ATTACHMENT_SUBTITLE url
       (env_URL +:+ "/images/icon-192.png")) = Fulfilled false →
  createAttachment env_URL client issueIdentifier title url
  = if is_permission_denied
         (ErrorObj ("Linear attachmentCreate returned success=false for issue "
                    +:+ issueIdentifier))
    then ([permission_entry issueIdentifier], Fulfilled tt)
    else ([], Rejected
                (ErrorObj ("Linear attachmentCreate returned success=false for issue "
                           +:+ issueIdentifier))).
Proof.
  intros Hissue Hcall. unfold createAttachment, is_permission_denied.
  unfold mbind, Async_bind, await, response, try_catch, throw.
  rewrite Hissue, Hcall. cbn [negb err_message]. by destruct (_ || _).
Qed.

Lemma create_success_false_witness :
  createAttachment test_URL (test_client [] (Fulfilled false) (Fulfilled true))
    "ENG-403" "Roadmap" "url"
  = ([permission_entry "ENG-403"], Fulfilled tt)
  ∧ createAttachment test_URL (test_client [] (Fulfilled false) (Fulfilled true))
      "ENG-456" "Roadmap" "url"
    = ([], Rejected
             (ErrorObj "Linear attachmentCreate returned success=false for issue ENG-456")).
Proof.
  pose (client := test_client [] (Fulfilled false) (Fulfilled true)).
  split.
  - exact (create_success_false test_URL client "ENG-403" "Roadmap" "url"
             (test_issue "ENG-403") eq_refl eq_refl).
  - exact (create_success_false test_URL client "ENG-456" "Roadmap" "url"
             (test_issue "ENG-456") eq_refl eq_refl).
Defined.

(** X2. A deletion that the service answers with [success = false] is
    classified by the text of its message, which ends with the attachment
    id: when that text holds [Not found] or [404] the promise fulfils as for
    an attachment already gone; otherwise it rejects with the error. *)
Theorem delete_success_false (client : LinearClient) (attachmentId : string) :
  client_deleteAttachment client attachmentId = Fulfilled false →
  deleteAttachment client attachmentId
  = if is_not_found
         (ErrorObj ("Linear attachmentDelete returned success=false for attachment "
                    +:+ attachmentId))
    then ([], Fulfilled tt)
    else ([], Rejected
                (ErrorObj ("Linear attachmentDelete returned success=false for attachment "
                           +:+ attachmentId))).
Proof.
  intros Hcall. unfold deleteAttachment, is_not_found.
  unfold mbind, Async_bind, await, response, try_catch, throw.
  rewrite Hcall. cbn [negb err_message]. by destruct (_ || _).
Qed.

Lemma delete_success_false_witness :
  deleteAttachment (test_client [] (Fulfilled true) (Fulfilled false))
    "7c1e4043-9d2a-4f6b-8d55-0a1b2c3d4e5f"
  = ([], Fulfilled tt)
  ∧ deleteAttachment (test_client [] (Fulfilled true) (Fulfilled false))
      "attachment-to-delete"
    = ([], Rejected
             (ErrorObj "Linear attachmentDelete returned success=false for attachment attachment-to-delete")).
Proof.
  pose (client := test_client [] (Fulfilled true) (Fulfilled false)).
  split.
  - exact (delete_success_false client "7c1e4043-9d2a-4f6b-8d55-0a1b2c3d4e5f"
             eq_refl).
  - exact (delete_success_false client "attachment-to-delete" eq_refl).
Defined.

(** ** What [perform] lets through *)

Lemma fetchAttachmentsForUrl_fulfils client url :
  ∃ entries existing,
    fetchAttachmentsForUrl client url = (entries, Fulfilled existing).
Proof.
  unfold fetchAttachmentsForUrl.
  unfold mbind, Async_bind, await, response, try_catch, Logger, resolve.
  destruct (client_attachmentsForURL client url) as [nodes|e]; [|by eauto].
  destruct (all_values _) as [resolved|e]; by eauto.
Qed.

(** [resolveTarget] rejects only with the rejection of the lookup that it
    awaits. *)
Lemma resolveTarget_rejected env_URL documents collections documentId
    collectionId entries reason :
  resolveTarget env_URL documents collections documentId collectionId
  = (entries, Rejected reason) →
  (truthy_opt documentId = true
   ∧ documents (default "" documentId) = Rejected reason)
  ∨ (truthy_opt documentId = false ∧ truthy_opt collectionId = true
     ∧ collections (default "" collectionId) = Rejected reason).
Proof.
  unfold resolveTarget.
  unfold mbind, Async_bind, await, response, Logger, resolve.
  destruct (truthy_opt documentId) eqn:Hd;
    destruct (truthy_opt collectionId) eqn:Hc;
    destruct (negb (truthy env_URL)); simpl; try discriminate.
  - destruct (documents _) as [[document|]|e]; simpl; try discriminate.
    + destruct (negb (truthy (doc_path document))); discriminate.
    + intros [= _ ->]. by left.
  - destruct (documents _) as [[document|]|e]; simpl; try discriminate.
    + destruct (negb (truthy (doc_path document))); discriminate.
    + intros [= _ ->]. by left.
  - destruct (collections _) as [[collection|]|e]; simpl; try discriminate.
    + destruct (negb (truthy (coll_path collection))); discriminate.
    + intros [= _ ->]. by right.
Qed.

Lemma buildAttachmentUrl_cases platform baseUrl :
  buildAttachmentUrl platform baseUrl
  = match attachmentUrlObject platform baseUrl with
    | Some url => ([], Fulfilled (URL_toString platform url))
    | None => ([], Rejected (ErrorObj ("Invalid attachment base URL: " +:+ baseUrl)))
    end.
Proof.
  unfold buildAttachmentUrl. by destruct (attachmentUrlObject platform baseUrl).
Qed.

Lemma attachmentUrlObject_None platform baseUrl :
  attachmentUrlObject platform baseUrl = None ↔ URL_parse platform baseUrl = None.
Proof. unfold attachmentUrlObject. by destruct (URL_parse platform baseUrl). Qed.

Lemma operations_lookup_create env_URL client targetTitle url created deleted i id :
  created !! i = Some id →
  operations env_URL client targetTitle url created deleted !! i
  = Some (mkOperation create id
            (createAttachment env_URL client id targetTitle url)).
Proof.
  intros Hi. unfold operations.
  rewrite lookup_app_l by (rewrite length_map; by eapply lookup_lt_Some).
  change (map ?f created) with (f <$> created).
  by rewrite list_lookup_fmap, Hi.
Qed.

Lemma operations_lookup_delete env_URL client targetTitle url created deleted i a :
  deleted !! i = Some a →
  operations env_URL client targetTitle url created deleted !! (length created + i)
  = Some (mkOperation delete (identifier (att_issue a))
            (deleteAttachment client (att_id a))).
Proof.
  intros Hi. unfold operations.
  rewrite lookup_app_r by (rewrite length_map; lia).
  rewrite length_map. replace (length created + i - length created) with i by lia.
  change (map ?f deleted) with (f <$> deleted).
  by rewrite list_lookup_fmap, Hi.
Qed.

Lemma operations_length env_URL client targetTitle url created deleted :
  length (operations env_URL client targetTitle url created deleted)
  = length created + length deleted.
Proof. unfold operations. by rewrite length_app, !length_map. Qed.

Lemma failure_entries_length documentId collectionId ops :
  length (failure_entries documentId collectionId (zip ops (settlements ops)))
  = rejections (settlements ops).
Proof.
  unfold failure_entries, settlements, rejections.
  induction ops as [|op ops IH]; [done|].
  cbn [fmap list_fmap zip zip_with omap list_omap List.filter].
  destruct (snd (op_promise op)); cbn [is_rejected length]; by rewrite IH.
Qed.

(** C5, as amended. [perform] awaits three lookups outside any [try]:
    [Linear.getClientForTeam] and, in [resolveTarget], [Document.findByPk]
    or [Collection.findByPk].  The rejection of one of them rejects the run
    with the same error, and so does a resolved base URL that [new URL]
    refuses, with the error of [buildAttachmentUrl]; in every other case the
    run fulfils, so that a run that rejects does so for one of these
    reasons.  From the diff on it always fulfils: [Promise.allSettled]
    yields one settlement per entry of [toCreate] and of [toDelete], each
    the settlement of that entry's own call; the loop logs a warning for
    every rejected one and counts every one as succeeded or failed, and the
    summary reports the two counts. *)
Theorem perform_error_propagation (platform : URLClass) (env_URL : string)
    (getClientForTeam : string → settled (option LinearClient))
    (documents : string → settled (option Document))
    (collections : string → settled (option Collection))
    (completion : list nat) (props : Props) :
  (∀ entries reason,
     perform platform env_URL getClientForTeam documents collections
       completion props
     = (entries, Rejected reason) →
     getClientForTeam (teamId props) = Rejected reason
     ∨ documents (default "" (documentId props)) = Rejected reason
     ∨ collections (default "" (collectionId props)) = Rejected reason
     ∨ ∃ title baseUrl,
         snd (resolveTarget env_URL documents collections
                (documentId props) (collectionId props))
         = Fulfilled (title, baseUrl)
         ∧ URL_parse platform baseUrl = None
         ∧ reason = ErrorObj ("Invalid attachment base URL: " +:+ baseUrl))
  ∧ (∀ reason,
     getClientForTeam (teamId props) = Rejected reason →
     perform platform env_URL getClientForTeam documents collections
       completion props
     = ([], Rejected reason))
  ∧ (getClientForTeam (teamId props) = Fulfilled None →
     perform platform env_URL getClientForTeam documents collections
       completion props
     = ([], Fulfilled tt))
  ∧ (∀ client entries reason,
       getClientForTeam (teamId props) = Fulfilled (Some client) →
       resolveTarget env_URL documents collections
         (documentId props) (collectionId props)
       = (entries, Rejected reason) →
       perform platform env_URL getClientForTeam documents collections
         completion props
       = (entries, Rejected reason)
       ∧ (documents (default "" (documentId props)) = Rejected reason
          ∨ collections (default "" (collectionId props)) = Rejected reason))
  ∧ (∀ client entries title baseUrl,
       getClientForTeam (teamId props) = Fulfilled (Some client) →
       resolveTarget env_URL documents collections
         (documentId props) (collectionId props)
       = (entries, Fulfilled (title, baseUrl)) →
       (truthy baseUrl = false →
        perform platform env_URL getClientForTeam documents collections
          completion props
        = ((entries ++ [target_missing_entry props])%list, Fulfilled tt))
       ∧ (truthy baseUrl = true →
          URL_parse platform baseUrl = None →
          perform platform env_URL getClientForTeam documents collections
            completion props
          = (entries,
             Rejected (ErrorObj ("Invalid attachment base URL: " +:+ baseUrl))))
       ∧ (truthy baseUrl = true →
          ∀ url, attachmentUrlObject platform baseUrl = Some url →
          ∃ listing existing,
            fetchAttachmentsForUrl client (URL_toString platform url)
            = (listing, Fulfilled existing)
            ∧ perform platform env_URL getClientForTeam documents collections
                completion props
              = ((entries ++ listing
                  ++ fst (sync env_URL completion props client title
                            (URL_toString platform url) existing))%list,
                 Fulfilled tt)))
  ∧ (∀ client title attachmentUrl existing,
       let created := toCreate (currentIssueIdentifiers props) existing in
       let deleted := toDelete (currentIssueIdentifiers props) existing in
       let ops := operations env_URL client (or_else title "Untitled")
                    attachmentUrl created deleted in
       sync env_URL completion props client title attachmentUrl existing
       = ((completed_entries completion ops
           ++ failure_entries (documentId props) (collectionId props)
                (zip ops (settlements ops))
           ++ if (0 <? length ops)%nat
              then [summary_entry props (length created) (length deleted)
                      (fulfilments (settlements ops))
                      (rejections (settlements ops))]
              else [])%list,
          Fulfilled tt)
       ∧ count_results (documentId props) (collectionId props)
           (zip ops (settlements ops)) 0 0
         = (failure_entries (documentId props) (collectionId props)
              (zip ops (settlements ops)),
            Fulfilled (fulfilments (settlements ops),
                       rejections (settlements ops)))
       ∧ snd (allSettled completion (map op_promise ops))
         = Fulfilled (settlements ops)
       ∧ length (settlements ops) = length created + length deleted
       ∧ (∀ i id, created !! i = Some id →
            settlements ops !! i
            = Some (snd (createAttachment env_URL client id
                           (or_else title "Untitled") attachmentUrl)))
       ∧ (∀ i a, deleted !! i = Some a →
            settlements ops !! (length created + i)
            = Some (snd (deleteAttachment client (att_id a))))
       ∧ fulfilments (settlements ops) + rejections (settlements ops)
         = length created + length deleted
       ∧ length (failure_entries (documentId props) (collectionId props)
                   (zip ops (settlements ops)))
         = rejections (settlements ops)).
Proof.
  assert (Hcases :
    (∀ reason,
       getClientForTeam (teamId props) = Rejected reason →
       perform platform env_URL getClientForTeam documents collections
         completion props
       = ([], Rejected reason))
    ∧ (getClientForTeam (teamId props) = Fulfilled None →
       perform platform env_URL getClientForTeam documents collections
         completion props
       = ([], Fulfilled tt))
    ∧ (∀ client entries reason,
         getClientForTeam (teamId props) = Fulfilled (Some client) →
         resolveTarget env_URL documents collections
           (documentId props) (collectionId props)
         = (entries, Rejected reason) →
         perform platform env_URL getClientForTeam documents collections
           completion props
         = (entries, Rejected reason)
         ∧ (documents (default "" (documentId props)) = Rejected reason
            ∨ collections (default "" (collectionId props)) = Rejected reason))
    ∧ (∀ client entries title baseUrl,
         getClientForTeam (teamId props) = Fulfilled (Some client) →
         resolveTarget env_URL documents collections
           (documentId props) (collectionId props)
         = (entries, Fulfilled (title, baseUrl)) →
         (truthy baseUrl = false →
          perform platform env_URL getClientForTeam documents collections
            completion props
          = ((entries ++ [target_missing_entry props])%list, Fulfilled tt))
         ∧ (truthy baseUrl = true →
            URL_parse platform baseUrl = None →
            perform platform env_URL getClientForTeam documents collections
              completion props
            = (entries,
               Rejected (ErrorObj ("Invalid attachment base URL: " +:+ baseUrl))))
         ∧ (truthy baseUrl = true →
            ∀ url, attachmentUrlObject platform baseUrl = Some url →
            ∃ listing existing,
              fetchAttachmentsForUrl client (URL_toString platform url)
              = (listing, Fulfilled existing)
              ∧ perform platform env_URL getClientForTeam documents collections
                  completion props
                = ((entries ++ listing
                    ++ fst (sync env_URL completion props client title
                              (URL_toString platform url) existing))%list,
                   Fulfilled tt)))); cycle 1.
  { destruct Hcases as (Hlookup & Hnone & Htarget & Hresolved).
    split; [|split; [done|split; [done|split; [done|split; [done|]]]]].
    - intros entries reason Hrun.
      destruct (getClientForTeam (teamId props)) as [[client|]|e] eqn:Hclient.
      + destruct (resolveTarget env_URL documents collections
                    (documentId props) (collectionId props))
          as [entries' [[title baseUrl]|e]] eqn:Hresolve.
        * destruct (Hresolved client entries' title baseUrl eq_refl eq_refl)
            as (Hfalsy & Hmalformed & Hfine).
          destruct (truthy baseUrl) eqn:Hbase;
            [|rewrite (Hfalsy eq_refl) in Hrun; discriminate].
          destruct (URL_parse platform baseUrl) as [parsed|] eqn:Hparse.
          -- destruct (Hfine eq_refl
                         (URL_searchParams_set platform parsed OUTLINE_REF_PARAM
                            OUTLINE_REF_VALUE))
               as (listing & existing & _ & Hfulfils).
             { unfold attachmentUrlObject. by rewrite Hparse. }
             rewrite Hfulfils in Hrun. discriminate.
          -- rewrite (Hmalformed eq_refl eq_refl) in Hrun.
             injection Hrun as _ <-. do 3 right. by exists title, baseUrl.
        * destruct (Htarget client entries' e eq_refl eq_refl) as [Hrejects Hwhy].
          rewrite Hrejects in Hrun. injection Hrun as _ <-.
          destruct Hwhy; [right; by left | right; right; by left].
      + rewrite (Hnone eq_refl) in Hrun. discriminate.
      + rewrite (Hlookup e eq_refl) in Hrun. injection Hrun as _ <-. by left.
    - intros client title attachmentUrl existing created deleted ops.
      split; [apply sync_spec|].
      split.
      { rewrite count_results_spec, zip_settlements. reflexivity. }
      split; [unfold allSettled; simpl; by rewrite map_snd_op_promise|].
      assert (Hlen : length (settlements ops) = length created + length deleted).
      { unfold settlements. rewrite length_fmap. apply operations_length. }
      split; [done|]. split; [|split; [|split]].
      + intros i id Hi. unfold settlements. rewrite list_lookup_fmap.
        unfold ops. by erewrite operations_lookup_create.
      + intros i a Hi. unfold settlements. rewrite list_lookup_fmap.
        unfold ops. by erewrite operations_lookup_delete.
      + by rewrite settled_counts.
      + apply failure_entries_length. }
  split; [|split; [|split]].
  - intros reason Hclient. unfold perform.
    unfold mbind, Async_bind, await, response. by rewrite Hclient.
  - intros Hclient. unfold perform.
    unfold mbind, Async_bind, await, response. by rewrite Hclient.
  - intros client entries reason Hclient Htarget. split.
    + unfold perform. unfold mbind, Async_bind, await, response.
      by rewrite Hclient, Htarget.
    + apply resolveTarget_rejected in Htarget.
      destruct Htarget as [[_ ?]|(_ & _ & ?)]; [by left|by right].
  - intros client entries title baseUrl Hclient Htarget.
    unfold perform, response. rewrite Hclient, bind_fulfilled.
    rewrite Htarget, bind_fulfilled. cbn [app].
    split; [|split].
    + intros Hbase. rewrite Hbase. reflexivity.
    + intros Hbase Hparse. rewrite Hbase. cbn [negb].
      apply attachmentUrlObject_None in Hparse.
      rewrite buildAttachmentUrl_cases, Hparse, bind_rejected.
      by rewrite app_nil_r.
    + intros Hbase url Hurl. rewrite Hbase. cbn [negb].
      rewrite buildAttachmentUrl_cases, Hurl, bind_fulfilled.
      destruct (fetchAttachmentsForUrl_fulfils client (URL_toString platform url))
        as (listing & existing & Hfetch).
      exists listing, existing. split; [done|].
      rewrite Hfetch, bind_fulfilled.
      pose proof (sync_spec env_URL completion props client title
                    (URL_toString platform url) existing) as Hsync.
      cbv zeta in Hsync. rewrite Hsync. reflexivity.
Qed.

Lemma perform_error_propagation_witness :
  perform PlainURLClass test_URL failing_lookup test_Document_findByPk
    test_Collection_findByPk in_order (document_props ["ENG-456"])
  = ([], Rejected (ErrorObj "connection refused"))
  ∧ settlements
      (operations test_URL
         (test_client [] (Rejected (ErrorObj "Internal server error"))
            (Fulfilled true))
         "Roadmap" "url"
         (toCreate ["ENG-456"] [test_attachment "attachment-to-delete" "ENG-1"])
         (toDelete ["ENG-456"] [test_attachment "attachment-to-delete" "ENG-1"]))
    !! 0 = Some (Rejected (ErrorObj "Internal server error"))
  ∧ settlements
      (operations test_URL
         (test_client [] (Rejected (ErrorObj "Internal server error"))
            (Fulfilled true))
         "Roadmap" "url"
         (toCreate ["ENG-456"] [test_attachment "attachment-to-delete" "ENG-1"])
         (toDelete ["ENG-456"] [test_attachment "attachment-to-delete" "ENG-1"]))
    !! 1 = Some (Fulfilled tt).
Proof.
  pose (client := test_client [] (Rejected (ErrorObj "Internal server error"))
                    (Fulfilled true)).
  pose (existing := [test_attachment "attachment-to-delete" "ENG-1"]).
  destruct (perform_error_propagation PlainURLClass test_URL failing_lookup
              test_Document_findByPk test_Collection_findByPk in_order
              (document_props ["ENG-456"]))
    as (_ & Hlookup & _ & _ & _ & Hsync).
  destruct (Hsync client "Roadmap" "url" existing)
    as (_ & _ & _ & _ & Hcreate & Hdelete & _).
  split; [exact (Hlookup (ErrorObj "connection refused") eq_refl)|].
  split.
  - exact (Hcreate 0 "ENG-456" eq_refl).
  - exact (Hdelete 0 _ eq_refl).
Defined.

(** C5, counterexample. The base URL of the document is well formed, and
    [buildAttachmentUrl] accepts it; the run rejects all the same when the
    lookup of the client fails, and when the lookup of the document does. *)
Lemma failed_lookup_rejects_perform :
  buildAttachmentUrl PlainURLClass
    (buildEntityUrl test_URL "/doc/roadmap-abc123")
  = ([], Fulfilled
           "https://app.outline.dev/doc/roadmap-abc123?ref=outline-backlink")
  ∧ perform PlainURLClass test_URL failing_lookup test_Document_findByPk
      test_Collection_findByPk in_order (document_props ["ENG-456"])
    = ([], Rejected (ErrorObj "connection refused"))
  ∧ perform PlainURLClass test_URL
      (test_getClientForTeam (test_client [] (Fulfilled true) (Fulfilled true)))
      failing_lookup test_Collection_findByPk in_order
      (document_props ["ENG-456"])
    = ([], Rejected (ErrorObj "connection refused")).
Proof. repeat split; vm_compute; reflexivity. Qed.

(** A base URL without a scheme: [perform] rejects. *)
Example perform_rejects_on_malformed_URL :
  test_perform "app.outline.dev"
    (test_client [] (Fulfilled true) (Fulfilled true))
    (document_props ["ENG-456"])
  = ([], Rejected (ErrorObj
       "Invalid attachment base URL: app.outline.dev/doc/roadmap-abc123")).
Proof. vm_compute. reflexivity. Qed.

(** A failed creation next to a deletion: both settle, each is counted. *)
Example failing_create_beside_delete :
  test_perform test_URL
    (test_client [test_node "attachment-to-delete" "ENG-1"]
       (Rejected (ErrorObj "Internal server error")) (Fulfilled true))
    (document_props ["ENG-456"])
  = ([mkLog Warn "Linear backlink sync operation failed"
        [("documentId", LOpt (Some "doc-1")); ("collectionId", LOpt None);
         ("operation", LStr "create"); ("issueIdentifier", LStr "ENG-456");
         ("error", LStr "Internal server error")];
      summary_entry (document_props ["ENG-456"]) 1 1 1 1],
     Fulfilled tt).
Proof. vm_compute. reflexivity. Qed.

(** ** The listing of the existing attachments *)

Lemma fetchAttachmentsForUrl_resolved client url nodes :
  client_attachmentsForURL client url = Fulfilled nodes →
  (∀ n, n ∈ nodes → is_rejected (node_issue n) = false) →
  fetchAttachmentsForUrl client url = ([], Fulfilled (resolved_attachments nodes)).
Proof.
  intros Hlist Hsettled. unfold fetchAttachmentsForUrl.
  unfold mbind, Async_bind, await, response, try_catch, resolve.
  rewrite Hlist.
  assert (Hall : all_values
                   (map (λ attachment,
                           match node_issue attachment with
                           | Fulfilled issue => Fulfilled (attachment, issue)
                           | Rejected e => Rejected e
                           end) nodes)
                 = Fulfilled ((λ n, (n, match node_issue n with
                                        | Fulfilled issue => issue
                                        | Rejected _ => None
                                        end)) <$> nodes)).
  { clear Hlist. induction nodes as [|n nodes IH]; [done|].
    simpl. pose proof (Hsettled n ltac:(left)) as Hn.
    destruct (node_issue n) as [issue|e]; [|done].
    rewrite IH; [done|]. intros m Hm. apply Hsettled. by right. }
  rewrite Hall. simpl. do 2 f_equal.
  clear Hall Hlist. unfold resolved_attachments.
  induction nodes as [|n nodes IH]; [done|].
  pose proof (Hsettled n ltac:(left)) as Hn.
  rewrite fmap_cons. cbn [omap list_omap fst snd].
  rewrite IH by (intros m Hm; apply Hsettled; by right).
  destruct (node_issue n) as [[[]|]|]; done.
Qed.

Lemma elem_of_resolved_attachments nodes a :
  a ∈ resolved_attachments nodes
  ↔ ∃ n issue, n ∈ nodes ∧ node_issue n = Fulfilled (Some issue)
               ∧ a = mkAttachment (node_id n) (node_url n) issue.
Proof.
  unfold resolved_attachments. rewrite list_elem_of_omap. split.
  - intros (n & Hn & Ha). exists n.
    destruct (node_issue n) as [[issue|]|]; try done.
    exists issue. by inversion Ha.
  - intros (n & issue & Hn & Hissue & ->). exists n. by rewrite Hissue.
Qed.

(** C10. When the listing succeeds and every issue fetch settles, the
    existing attachments are those of the listing with a resolved issue, and
    nothing is logged.  An attachment whose issue is undefined is therefore
    never in [toDelete] (no deletion carries its id, ids being unique), and
    an identifier is in [toCreate] exactly when it is desired and no
    attachment with a resolved issue carries it. *)
Theorem unresolved_issues_are_omitted (client : LinearClient) (url : string)
    (nodes : list AttachmentNode) :
  client_attachmentsForURL client url = Fulfilled nodes →
  (∀ n, n ∈ nodes → is_rejected (node_issue n) = false) →
  ∃ existing,
    fetchAttachmentsForUrl client url = ([], Fulfilled existing)
    ∧ (∀ a, a ∈ existing
            ↔ ∃ n issue, n ∈ nodes ∧ node_issue n = Fulfilled (Some issue)
                         ∧ a = mkAttachment (node_id n) (node_url n) issue)
    ∧ (∀ desired n,
         NoDup (node_id <$> nodes) → n ∈ nodes → node_issue n = Fulfilled None →
         node_id n ∉ att_id <$> toDelete desired existing)
    ∧ (∀ desired id,
         id ∈ toCreate desired existing
         ↔ id ∈ desired
           ∧ ¬ ∃ n issue, n ∈ nodes ∧ node_issue n = Fulfilled (Some issue)
                          ∧ identifier issue = id).
Proof.
  intros Hlist Hsettled. exists (resolved_attachments nodes).
  split; [by apply fetchAttachmentsForUrl_resolved|].
  split; [apply elem_of_resolved_attachments|]. split.
  - intros desired n Hnd Hn Hundef Hid.
    apply list_elem_of_fmap in Hid as (a & Hida & Ha).
    apply elem_of_toDelete in Ha as [Ha _].
    apply elem_of_resolved_attachments in Ha as (m & issue & Hm & Hissue & ->).
    simpl in Hida.
    assert (n = m) as ->; [|congruence].
    apply list_elem_of_lookup in Hn as [i Hi].
    apply list_elem_of_lookup in Hm as [j Hj].
    assert (i = j) as ->; [|congruence].
    eapply NoDup_lookup; [exact Hnd| |];
      rewrite list_lookup_fmap; [by rewrite Hi | by rewrite Hj, Hida].
  - intros desired id. rewrite elem_of_toCreate, elem_of_identifiers_of.
    split; intros [Hid Hnone]; (split; [done|]).
    + intros (n & issue & Hn & Hissue & Hident). apply Hnone.
      exists (mkAttachment (node_id n) (node_url n) issue).
      split; [|done]. apply elem_of_resolved_attachments. eauto.
    + intros (a & Ha & Hident). apply Hnone.
      apply elem_of_resolved_attachments in Ha as (n & issue & Hn & Hissue & ->).
      eauto.
Qed.

Lemma unresolved_issues_are_omitted_witness :
  client_attachmentsForURL orphan_client "url" = Fulfilled orphan_nodes
  ∧ ∃ existing,
      fetchAttachmentsForUrl orphan_client "url" = ([], Fulfilled existing)
      ∧ (∀ a, a ∈ existing
              ↔ ∃ n issue, n ∈ orphan_nodes
                           ∧ node_issue n = Fulfilled (Some issue)
                           ∧ a = mkAttachment (node_id n) (node_url n) issue).
Proof.
  split; [reflexivity|].
  assert (Hsettled : ∀ n, n ∈ orphan_nodes → is_rejected (node_issue n) = false).
  { intros n Hn. unfold orphan_nodes in Hn.
    apply elem_of_cons in Hn as [->|Hn]; [reflexivity|].
    apply elem_of_cons in Hn as [->|Hn]; [reflexivity|].
    by apply elem_of_nil in Hn. }
  destruct (unresolved_issues_are_omitted orphan_client "url" orphan_nodes
              eq_refl Hsettled) as (existing & Hfetch & Hmem & _).
  exists existing. split; [exact Hfetch | exact Hmem].
Defined.

(** With nothing desired, the attachment of the resolved issue is deleted
    and the one without an issue is left alone. *)
Example orphan_is_not_deleted :
  test_perform test_URL orphan_client (document_props [])
  = ([summary_entry (document_props []) 0 1 1 0], Fulfilled tt)
  ∧ snd (fetchAttachmentsForUrl orphan_client "url")
    = Fulfilled [mkAttachment "a1" "https://app.outline.dev"
                   (mkIssue "linear-issue-ENG-1" "ENG-1")].
Proof. split; vm_compute; reflexivity. Qed.

(** ** The attachment URL *)

Lemma prefix_app sub t : String.prefix sub (sub +:+ t) = true.
Proof.
  induction sub as [|a sub IH]; simpl; [by destruct t|].
  destruct (ascii_dec a a); [apply IH | done].
Qed.

Lemma prefix_app_l sub s t :
  String.prefix sub s = true → String.prefix sub (s +:+ t) = true.
Proof.
  revert s. induction sub as [|a sub IH]; intros s; simpl.
  - intros _. by destruct (s +:+ t).
  - destruct s as [|b s]; simpl; [done|].
    destruct (ascii_dec a b); [apply IH | done].
Qed.

Lemma includes_app_r s t sub :
  includes t sub = true → includes (s +:+ t) sub = true.
Proof.
  intros Ht. induction s as [|a s IH]; [done|].
  change (String a s +:+ t) with (String a (s +:+ t)). cbn [includes].
  destruct (String.prefix sub (String a (s +:+ t))); [done | exact IH].
Qed.

Lemma includes_app_l s t sub :
  includes s sub = true → includes (s +:+ t) sub = true.
Proof.
  induction s as [|a s IH].
  - destruct sub as [|b sub]; [|done]. intros _. by destruct t.
  - cbn [includes]. destruct (String.prefix sub (String a s)) eqn:Hp.
    + intros _. change (String a s +:+ t) with (String a (s +:+ t)).
      cbn [includes].
      change (String a (s +:+ t)) with (String a s +:+ t).
      by rewrite (prefix_app_l _ _ t Hp).
    + intros Hs. change (String a s +:+ t) with (String a (s +:+ t)).
      cbn [includes]. rewrite (IH Hs).
      by destruct (String.prefix sub (String a (s +:+ t))).
Qed.

Lemma includes_prefix s sub :
  String.prefix sub s = true → includes s sub = true.
Proof. intros Hp. destruct s; cbn [includes]; by rewrite Hp. Qed.

Lemma includes_self_app sub t : includes (sub +:+ t) sub = true.
Proof. apply includes_prefix, prefix_app. Qed.

Lemma has_char_app c s t : has_char c (s +:+ t) = has_char c s || has_char c t.
Proof.
  induction s as [|a s IH]; [done|].
  change (String a s +:+ t) with (String a (s +:+ t)). cbn [has_char].
  by rewrite IH, orb_assoc.
Qed.

Lemma split_at_no_char c s : has_char c s = false → split_at c s = (s, None).
Proof.
  induction s as [|a s IH]; [done|]. cbn [has_char split_at].
  destruct (Ascii.eqb a c); [done|]. simpl. intros Hs. by rewrite (IH Hs).
Qed.

Lemma split_at_None c s a :
  split_at c s = (a, None) → a = s ∧ has_char c s = false.
Proof.
  revert a. induction s as [|b s IH]; intros a; cbn [has_char split_at].
  - by intros [= <-].
  - destruct (Ascii.eqb b c); [done|].
    destruct (split_at c s) as [before after]. intros [= <- ->].
    destruct (IH before eq_refl) as [-> ->]. done.
Qed.

Lemma split_at_app_Some c s t a b :
  split_at c s = (a, Some b) → split_at c (s +:+ t) = (a, Some (b +:+ t)).
Proof.
  revert a. induction s as [|x s IH]; intros a; [done|].
  change (String x s +:+ t) with (String x (s +:+ t)). cbn [split_at].
  destruct (Ascii.eqb x c); [by intros [= <- <-]|].
  destruct (split_at c s) as [before after]. intros [= <- ->].
  by rewrite (IH before eq_refl).
Qed.

Lemma split_at_app_None c s t :
  has_char c s = false →
  split_at c (s +:+ t) = (s +:+ fst (split_at c t), snd (split_at c t)).
Proof.
  induction s as [|x s IH].
  { intros _. change ("" +:+ t) with t. by destruct (split_at c t). }
  change (String x s +:+ t) with (String x (s +:+ t)). cbn [has_char split_at].
  destruct (Ascii.eqb x c); [done|]. simpl. intros Hs. by rewrite (IH Hs).
Qed.

Lemma append_empty_r s : s +:+ "" = s.
Proof.
  induction s as [|a s IH]; [done|].
  change (String a s +:+ "") with (String a (s +:+ "")). by rewrite IH.
Qed.

Lemma rooted_slash path : ∃ tail, rooted path = String "/" tail.
Proof.
  unfold rooted, startsWith. destruct path as [|a path]; [by eexists|].
  cbn [String.prefix]. destruct (ascii_dec "/" a) as [<-|]; [|by eexists].
  destruct (String.prefix "" path); by eexists.
Qed.


Lemma after_slashes_app s t rest :
  after_slashes s = Some rest → after_slashes (s +:+ t) = Some (rest +:+ t).
Proof.
  destruct s as [|a [|b s]]; try done.
  change (String a (String b s) +:+ t) with (String a (String b (s +:+ t))).
  cbn [after_slashes]. destruct (_ && _); [|done]. by intros [= ->].
Qed.

Lemma startsWith_slash path :
  startsWith path "/" = true → ∃ tail, path = String "/" tail.
Proof.
  unfold startsWith. destruct path as [|a path]; [done|].
  cbn [String.prefix]. destruct (ascii_dec "/" a) as [<-|]; [|done]. by eexists.
Qed.


Lemma clean_prefix_chars s :
  clean_prefix s = true → has_char "?" s = false ∧ has_char "#" s = false.
Proof.
  unfold clean_prefix. intros [[_ Hq]%andb_true_iff Hh]%andb_true_iff.
  by destruct (has_char "?" s), (has_char "#" s).
Qed.

(** The small instance: a path that opens with a slash and holds neither
    [?] nor [#], appended to a string that parses, lands in the path alone. *)
Lemma plain_parse_path prefix path base :
  plain_parse prefix = Some base →
  has_char "?" prefix = false → has_char "#" prefix = false →
  startsWith path "/" = true →
  has_char "?" path = false → has_char "#" path = false →
  ∃ entityPath,
    plain_parse (prefix +:+ path)
    = Some (mkPlainURL (protocol base) (host base) entityPath None None).
Proof.
  intros Hparse Hquest Hhash Hslash Hq Hh. unfold plain_parse in *.
  rewrite (split_at_no_char "#" prefix Hhash) in Hparse.
  rewrite (split_at_no_char "?" prefix Hquest) in Hparse.
  destruct (split_at ":" prefix) as [scheme [after_colon|]] eqn:Hs3; [|done].
  destruct (after_slashes after_colon) as [rest|] eqn:Hslashes; [|done].
  destruct (valid_scheme scheme) eqn:Hscheme; [|done].
  destruct (split_at "/" rest) as [authority path0] eqn:Hs4.
  destruct (truthy authority) eqn:Hauthority; [|done].
  injection Hparse as <-.
  rewrite (split_at_no_char "#") by (by rewrite has_char_app, Hhash, Hh).
  rewrite (split_at_no_char "?") by (by rewrite has_char_app, Hquest, Hq).
  rewrite (split_at_app_Some _ _ path _ _ Hs3).
  rewrite (after_slashes_app _ path _ Hslashes), Hscheme.
  cbn [protocol host fmap option_fmap option_map].
  destruct path0 as [p0|].
  - rewrite (split_at_app_Some _ _ path _ _ Hs4), Hauthority.
    by eexists.
  - apply split_at_None in Hs4 as [-> Hnoslash].
    rewrite (split_at_app_None _ _ _ Hnoslash).
    destruct (startsWith_slash path Hslash) as [tail ->]. cbn [split_at fst snd].
    change (Ascii.eqb "/" "/") with true. cbn [fst snd].
    rewrite append_empty_r, Hauthority. by eexists.
Qed.





Lemma urlencoded_serialize_includes l n v :
  (n, v) ∈ l → includes (urlencoded_serialize l) (n +:+ "=" +:+ v) = true.
Proof.
  unfold urlencoded_serialize. induction l as [|p l IH]; intros Hin.
  - by apply elem_of_nil in Hin.
  - apply elem_of_cons in Hin as [<-|Hin].
    + destruct l as [|q l]; cbn [map join fst snd].
      * rewrite <- (append_empty_r (n +:+ "=" +:+ v)) at 1.
        apply includes_self_app.
      * apply includes_self_app.
    + destruct l as [|q l]; [by apply elem_of_nil in Hin|].
      change (join "&" (map (λ p, fst p +:+ "=" +:+ snd p) (p :: q :: l)))
        with ((fst p +:+ "=" +:+ snd p) +:+ "&"
              +:+ join "&" (map (λ p, fst p +:+ "=" +:+ snd p) (q :: l))).
      apply includes_app_r, includes_app_r, IH, Hin.
Qed.

(** The small instance satisfies the laws. *)
Lemma plain_laws : URLClass_laws PlainURLClass.
Proof.
  split; try done.
  - intros u name value n v Hin _ _.
    cbn [URL_toString URL_searchParams URL_searchParams_set PlainURLClass] in *.
    unfold plain_toString, plain_searchParams_set. cbn [protocol host pathname
      query fragment]. unfold plain_searchParams in Hin. cbn [query default
      from_option id] in Hin.
    do 4 apply includes_app_r. apply includes_app_l, includes_app_r.
    by apply urlencoded_serialize_includes.
  - intros prefix path base Hparse _ Hprefix Hslash Hq Hh.
    apply clean_prefix_chars in Hprefix as [Hquest Hhash].
    cbn [URL_parse URL_protocol URL_host URL_searchParams URL_hash
         PlainURLClass] in *.
    destruct (plain_parse_path prefix path base Hparse Hquest Hhash Hslash Hq Hh)
      as [entityPath Hentity].
    eexists. split; [exact Hentity|]. done.
Qed.




(** The attachment URL of a document, as the test suite expects it. *)
Example buildAttachmentUrl_document :
  buildAttachmentUrl PlainURLClass
    (buildEntityUrl test_URL "/doc/roadmap-abc123")
  = ([], Fulfilled "https://app.outline.dev/doc/roadmap-abc123?ref=outline-backlink").
Proof. vm_compute. reflexivity. Qed.

(** An entity path with a query string of its own is not a path: the string
    after the [?] joins the query of the attachment URL. *)
Example entity_path_with_query :
  buildAttachmentUrl PlainURLClass (buildEntityUrl test_URL "/doc/a?x=1")
  = ([], Fulfilled "https://app.outline.dev/doc/a?x=1&ref=outline-backlink").
Proof. vm_compute. reflexivity. Qed.

(** * Further properties *)

(** ** The shape of the diff *)

Lemma filter_ext_in {A} (P Q : A → Prop) `{!∀ x, Decision (P x)}
    `{!∀ x, Decision (Q x)} (l : list A) :
  (∀ x, x ∈ l → P x ↔ Q x) → filter P l = filter Q l.
Proof.
  induction l as [|x l IH]; intros Hext; [done|].
  rewrite !filter_cons.
  assert (Hx : P x ↔ Q x) by (apply Hext; left).
  rewrite IH by (intros y Hy; apply Hext; by right).
  destruct (decide (P x)), (decide (Q x)); tauto.
Qed.

Lemma filter_all {A} (P : A → Prop) `{!∀ x, Decision (P x)} (l : list A) :
  (∀ x, x ∈ l → P x) → filter P l = l.
Proof.
  induction l as [|x l IH]; intros Hall; [done|].
  rewrite filter_cons_True by (apply Hall; left).
  by rewrite IH by (intros y Hy; apply Hall; by right).
Qed.

(** X3. The diff keeps the order of its inputs and never pairs a creation
    with a deletion for the same issue: [toCreate] is a sublist of the
    desired list, [toDelete] is a sublist of the existing attachments, and no
    attachment of [toDelete] is linked to an identifier of [toCreate]. *)
Theorem reconcile_shape (desired : list string)
    (existing : list LinearAttachment) :
  toCreate desired existing `sublist_of` desired
  ∧ toDelete desired existing `sublist_of` existing
  ∧ Forall (λ a, identifier (att_issue a) ∉ toCreate desired existing)
           (toDelete desired existing).
Proof.
  split; [|split].
  - rewrite toCreate_unfold. apply sublist_filter.
  - rewrite toDelete_unfold. apply sublist_filter.
  - apply Forall_forall. intros a Ha Hcreate.
    apply elem_of_toDelete in Ha as [_ Hnot].
    apply elem_of_toCreate in Hcreate as [Hdesired _]. done.
Qed.

(** X4. A retried run attempts what is left.  When some of the deletions
    and some of the creations of a run took effect, so that the remote lists
    the existing attachments without the deleted ones and with the created
    ones, the diff of the next run with the same desired list is the diff of
    the first run without the operations that took effect. *)
Theorem retry_attempts_the_rest (desired : list string)
    (existing deleted created : list LinearAttachment) :
  (∀ a, a ∈ deleted → a ∈ toDelete desired existing) →
  (∀ id, id ∈ identifiers_of created → id ∈ toCreate desired existing) →
  toCreate desired (filter (λ a, a ∉ deleted) existing ++ created)
  = filter (λ id, id ∉ identifiers_of created) (toCreate desired existing)
  ∧ toDelete desired (filter (λ a, a ∉ deleted) existing ++ created)
    = filter (λ a, a ∉ deleted) (toDelete desired existing).
Proof.
  intros Hdeleted Hcreated. split.
  - rewrite !toCreate_unfold, list_filter_filter. apply filter_ext_in.
    intros id Hid. unfold identifiers_of at 1. rewrite fmap_app, elem_of_app.
    fold (identifiers_of created).
    assert (Hkept : id ∈ identifiers_of (filter (λ a, a ∉ deleted) existing)
                    ↔ id ∈ identifiers_of existing).
    { rewrite !elem_of_identifiers_of. split.
      - intros (a & Ha & Hident). apply list_elem_of_filter in Ha as [_ Ha]. eauto.
      - intros (a & Ha & Hident). exists a. split; [|done].
        apply list_elem_of_filter. split; [|done].
        intros Hgone. apply Hdeleted, elem_of_toDelete in Hgone as [_ Hnot].
        apply Hnot. by rewrite Hident. }
    fold (identifiers_of (filter (λ a, a ∉ deleted) existing)).
    rewrite Hkept. tauto.
  - rewrite !toDelete_unfold, filter_app.
    rewrite (filter_none _ created), app_nil_r.
    + rewrite !list_filter_filter. apply list_filter_iff. intros a. tauto.
    + intros a Ha Hnot. apply Hnot.
      assert (Hid : identifier (att_issue a) ∈ identifiers_of created).
      { apply elem_of_identifiers_of. eauto. }
      apply Hcreated, elem_of_toCreate in Hid as [Hdesired _]. done.
Qed.

Lemma retry_attempts_the_rest_witness :
  toCreate ["ENG-1"; "ENG-2"]
    (filter (λ a, a ∉ [test_attachment "a0" "ENG-9"])
       [test_attachment "a0" "ENG-9"; test_attachment "a3" "ENG-8"]
     ++ [test_attachment "n1" "ENG-1"])
  = filter (λ id, id ∉ identifiers_of [test_attachment "n1" "ENG-1"])
      (toCreate ["ENG-1"; "ENG-2"]
         [test_attachment "a0" "ENG-9"; test_attachment "a3" "ENG-8"])
  ∧ toDelete ["ENG-1"; "ENG-2"]
      (filter (λ a, a ∉ [test_attachment "a0" "ENG-9"])
         [test_attachment "a0" "ENG-9"; test_attachment "a3" "ENG-8"]
       ++ [test_attachment "n1" "ENG-1"])
    = filter (λ a, a ∉ [test_attachment "a0" "ENG-9"])
        (toDelete ["ENG-1"; "ENG-2"]
           [test_attachment "a0" "ENG-9"; test_attachment "a3" "ENG-8"]).
Proof.
  apply retry_attempts_the_rest.
  - intros a Ha. apply list_elem_of_singleton in Ha as ->.
    apply (bool_decide_unpack _). reflexivity.
  - intros id Hid. apply list_elem_of_singleton in Hid as ->.
    apply (bool_decide_unpack _). reflexivity.
Defined.

(** What is left in the example: one creation and one deletion. *)
Example retry_example :
  reconcile ["ENG-1"; "ENG-2"]
    (filter (λ a, a ∉ [test_attachment "a0" "ENG-9"])
       [test_attachment "a0" "ENG-9"; test_attachment "a3" "ENG-8"]
     ++ [test_attachment "n1" "ENG-1"])
  = (["ENG-2"], [test_attachment "a3" "ENG-8"]).
Proof. reflexivity. Qed.

(** ** A listing that fails *)

Lemma all_values_rejected {A} (rs : list (settled A)) :
  (∃ r, r ∈ rs ∧ is_rejected r = true) → ∃ e, all_values rs = Rejected e.
Proof.
  intros (r & Hr & Hrej). induction rs as [|x rs IH].
  - by apply elem_of_nil in Hr.
  - destruct x as [a|e]; [|by eexists].
    apply elem_of_cons in Hr as [->|Hr]; [done|].
    destruct (IH Hr) as [e He]. simpl. rewrite He. by eexists.
Qed.

(** X5. A listing that fails is read as an empty one.  When the call
    [attachmentsForURL] rejects, or when the fetch of the issue of a single
    listed attachment rejects, [fetchAttachmentsForUrl] logs one warning and
    returns no attachment at all; the diff then asks for a creation for every
    entry of the desired list and for no deletion. *)
Theorem failed_listing_recreates (client : LinearClient) (url : string) :
  (∃ e, client_attachmentsForURL client url = Rejected e)
  ∨ (∃ nodes n,
       client_attachmentsForURL client url = Fulfilled nodes
       ∧ n ∈ nodes ∧ is_rejected (node_issue n) = true) →
  fetchAttachmentsForUrl client url = ([listing_warning url], Fulfilled [])
  ∧ ∀ desired, reconcile desired [] = (desired, []).
Proof.
  intros Hfail. split.
  - unfold fetchAttachmentsForUrl.
    unfold mbind, Async_bind, await, response, try_catch, Logger, resolve.
    destruct Hfail as [[e ->]|(nodes & n & -> & Hn & Hrej)]; [done|].
    destruct (all_values_rejected
                (map (λ attachment,
                        match node_issue attachment with
                        | Fulfilled issue => Fulfilled (attachment, issue)
                        | Rejected e => Rejected e
                        end) nodes)) as [e ->]; [|done].
    exists (match node_issue n with
            | Fulfilled issue => Fulfilled (n, issue)
            | Rejected e => Rejected e
            end).
    split.
    + change (map ?f nodes) with (f <$> nodes).
      apply list_elem_of_fmap. by exists n.
    + by destruct (node_issue n).
  - intros desired. rewrite reconcile_unfold. f_equal.
    apply filter_all. intros id _ Hin. by apply elem_of_nil in Hin.
Qed.

Lemma failed_listing_recreates_witness :
  fetchAttachmentsForUrl
    (mkClient (λ _, Fulfilled [test_node "a1" "ENG-1";
                               mkNode "a2" "url" (Rejected (ErrorObj "timeout"))])
       (λ id, Fulfilled (Some (test_issue id)))
       (λ _, Fulfilled true) (λ _, Fulfilled true))
    "url"
  = ([listing_warning "url"], Fulfilled []).
Proof.
  refine (proj1 (failed_listing_recreates _ "url" _)).
  right. exists [test_node "a1" "ENG-1";
                 mkNode "a2" "url" (Rejected (ErrorObj "timeout"))],
                (mkNode "a2" "url" (Rejected (ErrorObj "timeout"))).
  split; [reflexivity|]. split; [|reflexivity]. right. left.
Defined.

(** ** The issue lookup of a creation *)

(** X6. The permission case of [createAttachment] does not cover the issue
    lookup, which runs before the [try] block: when [client.issue] rejects,
    whatever the message of the error, the creation rejects with that error,
    logs nothing itself, and the loop of [perform] reports it as failed. *)
Theorem issue_lookup_rejection (env_URL : string) (client : LinearClient)
    (issueIdentifier title url : string) (reason : thrown) :
  client_issue client issueIdentifier = Rejected reason →
  createAttachment env_URL client issueIdentifier title url = ([], Rejected reason)
  ∧ ∀ documentId collectionId op rest succeeded failed,
      op_promise op = createAttachment env_URL client issueIdentifier title url →
      count_results documentId collectionId
        ((op, snd (op_promise op)) :: rest) succeeded failed
      = (failure_entry documentId collectionId op reason
           :: fst (count_results documentId collectionId rest
                     succeeded (S failed)),
         snd (count_results documentId collectionId rest succeeded (S failed))).
Proof.
  intros Hissue.
  assert (Hcreate : createAttachment env_URL client issueIdentifier title url
                    = ([], Rejected reason)).
  { unfold createAttachment, mbind, Async_bind, await, response.
    by rewrite Hissue. }
  split; [done|]. intros documentId collectionId op rest succeeded failed Hop.
  rewrite Hop, Hcreate. cbn [snd count_results].
  unfold mbind, Async_bind, await, Logger.
  by destruct (count_results _ _ rest _ _).
Qed.

Lemma issue_lookup_rejection_witness :
  is_permission_denied (ErrorObj "403 Forbidden") = true
  ∧ createAttachment test_URL
      (mkClient (λ _, Fulfilled []) (λ _, Rejected (ErrorObj "403 Forbidden"))
         (λ _, Fulfilled true) (λ _, Fulfilled true))
      "ENG-456" "Roadmap" "url"
    = ([], Rejected (ErrorObj "403 Forbidden")).
Proof.
  split; [reflexivity|].
  exact (proj1 (issue_lookup_rejection test_URL
                  (mkClient (λ _, Fulfilled [])
                     (λ _, Rejected (ErrorObj "403 Forbidden"))
                     (λ _, Fulfilled true) (λ _, Fulfilled true))
                  "ENG-456" "Roadmap" "url" (ErrorObj "403 Forbidden") eq_refl)).
Defined.

Lemma failure_entries_none documentId collectionId ops results :
  Forall (λ r, is_rejected r = false) results →
  failure_entries documentId collectionId (zip ops results) = [].
Proof.
  intros Hall. revert ops.
  induction Hall as [|r results Hr _ IH]; intros [|op ops]; try done.
  cbn. destruct r; [apply IH | done].
Qed.

Lemma unknown_issue_operations env_URL client targetTitle url desired :
  (∀ id, id ∈ desired → client_issue client id = Fulfilled None) →
  operation_entries (operations env_URL client targetTitle url desired [])
  = issue_missing_entry <$> desired
  ∧ settlements (operations env_URL client targetTitle url desired [])
    = (λ _, Fulfilled tt) <$> desired.
Proof.
  unfold operations, operation_entries, settlements.
  rewrite app_nil_r.
  induction desired as [|id desired IH]; intros Hunknown; [done|].
  destruct IH as [IHe IHs]; [intros x Hx; apply Hunknown; by right|].
  assert (Hcreate : createAttachment env_URL client id targetTitle url
                    = ([issue_missing_entry id], Fulfilled tt)).
  { unfold createAttachment, mbind, Async_bind, await, response.
    rewrite (Hunknown id) by left. reflexivity. }
  split.
  - cbn [map fmap list_fmap concat op_promise]. rewrite Hcreate.
    cbn [fst]. f_equal. exact IHe.
  - cbn [map fmap list_fmap op_promise]. rewrite Hcreate.
    cbn [snd]. f_equal. exact IHs.
Qed.

Lemma counts_all_fulfilled {A B} (a : A) (l : list B) :
  fulfilments ((λ _, Fulfilled a) <$> l) = length l
  ∧ rejections ((λ _, Fulfilled a) <$> l) = 0.
Proof.
  unfold fulfilments, rejections.
  induction l as [|x l [IHf IHr]]; [done|]. cbn. by rewrite IHf.
Qed.

(** The notes of the skipped creations, in the order of completion. *)
Lemma unknown_issue_notes env_URL completion client targetTitle url desired :
  (∀ id, id ∈ desired → client_issue client id = Fulfilled None) →
  completed_entries completion
    (operations env_URL client targetTitle url desired [])
  = omap (λ i, issue_missing_entry <$> desired !! i) completion.
Proof.
  intros Hunknown. unfold completed_entries, operations. rewrite app_nil_r.
  induction completion as [|i completion IH]; [done|].
  cbn [fmap list_fmap concat omap list_omap].
  change (list_fmap _ _ ?f ?l) with (f <$> l). rewrite IH.
  change (list_omap ?f ?l) with (omap f l).
  change (map ?f desired) with (f <$> desired).
  rewrite list_lookup_fmap.
  destruct (desired !! i) as [id|] eqn:Hid; [|done].
  cbn [fmap option_fmap option_map from_option op_promise].
  unfold createAttachment at 1, mbind, Async_bind, await, response.
  rewrite (Hunknown id) by (by eapply list_elem_of_lookup_2). reflexivity.
Qed.

(** X7. Creations that are skipped count as created.  In a run without
    existing attachments in which Linear knows none of the desired issues,
    every creation logs that it is skipped and fulfils, and the summary
    reports as many created and succeeded operations as there are desired
    identifiers, and no failed one.  The notes come in the order in which
    the lookups complete, before the summary; when every creation completes
    once, they are the notes of the desired identifiers in some order. *)
Theorem unknown_issues_count_as_created (env_URL : string)
    (completion : list nat) (props : Props) (client : LinearClient)
    (title attachmentUrl : string) :
  currentIssueIdentifiers props ≠ [] →
  (∀ id, id ∈ currentIssueIdentifiers props →
         client_issue client id = Fulfilled None) →
  sync env_URL completion props client title attachmentUrl []
  = ((omap (λ i, issue_missing_entry <$> currentIssueIdentifiers props !! i)
           completion
      ++ [summary_entry props (length (currentIssueIdentifiers props)) 0
            (length (currentIssueIdentifiers props)) 0])%list,
     Fulfilled tt)
  ∧ (completion ≡ₚ seq 0 (length (currentIssueIdentifiers props)) →
     omap (λ i, issue_missing_entry <$> currentIssueIdentifiers props !! i)
          completion
     ≡ₚ issue_missing_entry <$> currentIssueIdentifiers props).
Proof.
  intros Hnonempty Hunknown.
  assert (Hcreate : toCreate (currentIssueIdentifiers props) []
                    = currentIssueIdentifiers props).
  { rewrite toCreate_unfold. apply filter_all.
    intros id _ Hin. by apply elem_of_nil in Hin. }
  assert (Hdelete : toDelete (currentIssueIdentifiers props) [] = [])
    by (by rewrite toDelete_unfold).
  split.
  - rewrite sync_spec. rewrite Hcreate, Hdelete.
    rewrite (unknown_issue_notes _ _ _ _ _ _ Hunknown).
    destruct (unknown_issue_operations env_URL client (or_else title "Untitled")
                attachmentUrl _ Hunknown) as [_ Hsettled].
    rewrite Hsettled, failure_entries_none.
    + destruct (counts_all_fulfilled () (currentIssueIdentifiers props))
        as [-> ->].
      rewrite operations_length. cbn [length]. rewrite Nat.add_0_r.
      destruct (currentIssueIdentifiers props); [done|]. reflexivity.
    + apply Forall_forall. intros r Hr.
      by apply list_elem_of_fmap in Hr as (? & -> & _).
  - intros Hperm.
    rewrite <- (unknown_issue_notes env_URL completion client
                  (or_else title "Untitled") attachmentUrl _ Hunknown).
    rewrite completed_entries_Permutation
      by (by rewrite operations_length, Nat.add_0_r).
    by rewrite (proj1 (unknown_issue_operations env_URL client
                         (or_else title "Untitled") attachmentUrl _ Hunknown)).
Qed.

Lemma unknown_issues_count_as_created_witness :
  sync test_URL [1; 0] (document_props ["NONEXISTENT-1"; "NONEXISTENT-2"])
    (mkClient (λ _, Fulfilled []) (λ _, Fulfilled None)
       (λ _, Fulfilled true) (λ _, Fulfilled true))
    "Roadmap" "url" []
  = ([issue_missing_entry "NONEXISTENT-2"; issue_missing_entry "NONEXISTENT-1";
      summary_entry (document_props ["NONEXISTENT-1"; "NONEXISTENT-2"]) 2 0 2 0],
     Fulfilled tt).
Proof.
  apply (unknown_issues_count_as_created test_URL [1; 0]
           (document_props ["NONEXISTENT-1"; "NONEXISTENT-2"])); [discriminate|].
  intros id _. reflexivity.
Defined.

(** ** What a resolved target is *)

Lemma or_else_truthy a b : truthy b = true → truthy (or_else a b) = true.
Proof. unfold or_else. by destruct (truthy a) eqn:Ha. Qed.

Lemma or_else_id a b : truthy a = true → or_else a b = a.
Proof. unfold or_else. by intros ->. Qed.

(** X8. A target that resolves (a non-empty URL) comes from a configured
    [env.URL] and from the document, when a document id is given, or else
    from the collection: the entity has a non-empty path, the URL is
    [env.URL] followed by the path under a leading slash, and the title is
    not empty, so that the fallback of [perform] on an empty title never
    applies to it. *)
Theorem resolved_target (env_URL : string)
    (documents : string → settled (option Document))
    (collections : string → settled (option Collection))
    (documentId collectionId : option string) (entries : list LogEntry)
    (title url : string) :
  resolveTarget env_URL documents collections documentId collectionId
  = (entries, Fulfilled (title, url)) →
  truthy url = true →
  truthy env_URL = true
  ∧ truthy title = true
  ∧ or_else title "Untitled" = title
  ∧ ((truthy_opt documentId = true
      ∧ ∃ document,
          documents (default "" documentId) = Fulfilled (Some document)
          ∧ truthy (doc_path document) = true
          ∧ title = or_else (doc_title document) "Untitled"
          ∧ url = env_URL +:+ rooted (doc_path document))
     ∨ (truthy_opt documentId = false
        ∧ truthy_opt collectionId = true
        ∧ ∃ collection,
            collections (default "" collectionId) = Fulfilled (Some collection)
            ∧ truthy (coll_path collection) = true
            ∧ title = or_else (coll_name collection) "Untitled Collection"
            ∧ url = env_URL +:+ rooted (coll_path collection))).
Proof.
  unfold resolveTarget, mbind, Async_bind, await, response, Logger, resolve.
  intros Hresolve Hurl.
  destruct (truthy env_URL) eqn:Henv; cycle 1.
  { destruct (truthy_opt documentId && truthy_opt collectionId);
      simpl in Hresolve; injection Hresolve as _ _ <-; done. }
  assert (Hcases :
    (if truthy_opt documentId
     then match documents (default "" documentId) with
          | Fulfilled (Some document) =>
              if negb (truthy (doc_path document)) then Fulfilled ("", "")
              else Fulfilled (or_else (doc_title document) "Untitled",
                              buildEntityUrl env_URL (doc_path document))
          | Fulfilled None => Fulfilled ("", "")
          | Rejected e => Rejected e
          end
     else if truthy_opt collectionId
     then match collections (default "" collectionId) with
          | Fulfilled (Some collection) =>
              if negb (truthy (coll_path collection)) then Fulfilled ("", "")
              else Fulfilled (or_else (coll_name collection) "Untitled Collection",
                              buildEntityUrl env_URL (coll_path collection))
          | Fulfilled None => Fulfilled ("", "")
          | Rejected e => Rejected e
          end
     else Fulfilled ("", ""))
    = Fulfilled (title, url)).
  { destruct (truthy_opt documentId && truthy_opt collectionId);
      simpl in Hresolve;
      destruct (truthy_opt documentId);
      [destruct (documents _) as [[document|]|e];
         [destruct (negb (truthy (doc_path document)))| |]
      |destruct (truthy_opt collectionId);
         [destruct (collections _) as [[collection|]|e];
            [destruct (negb (truthy (coll_path collection)))| |]|]
      |destruct (documents _) as [[document|]|e];
         [destruct (negb (truthy (doc_path document)))| |]
      |destruct (truthy_opt collectionId);
         [destruct (collections _) as [[collection|]|e];
            [destruct (negb (truthy (coll_path collection)))| |]|]];
      simpl in Hresolve; try discriminate Hresolve;
      by injection Hresolve as _ <- <-. }
  clear Hresolve. split; [done|].
  destruct (truthy_opt documentId) eqn:Hdoc.
  - destruct (documents _) as [[document|]|e] eqn:Hdocument;
      [|by injection Hcases as <- <-|done].
    destruct (truthy (doc_path document)) eqn:Hpath; simpl in Hcases;
      [|by injection Hcases as <- <-].
    injection Hcases as <- <-.
    assert (Htitle : truthy (or_else (doc_title document) "Untitled") = true)
      by (by apply or_else_truthy).
    split; [done|]. split; [by apply or_else_id|]. left. split; [done|].
    exists document. by rewrite Hpath.
  - destruct (truthy_opt collectionId) eqn:Hcoll; [|by injection Hcases as <- <-].
    destruct (collections _) as [[collection|]|e] eqn:Hcollection;
      [|by injection Hcases as <- <-|done].
    destruct (truthy (coll_path collection)) eqn:Hpath; simpl in Hcases;
      [|by injection Hcases as <- <-].
    injection Hcases as <- <-.
    assert (Htitle : truthy (or_else (coll_name collection) "Untitled Collection")
                     = true) by (by apply or_else_truthy).
    split; [done|]. split; [by apply or_else_id|]. right.
    split; [done|]. split; [done|]. exists collection. by rewrite Hpath.
Qed.

Lemma resolved_target_witness :
  resolveTarget test_URL test_Document_findByPk test_Collection_findByPk
    (Some "doc-1") None
  = ([], Fulfilled ("Roadmap", "https://app.outline.dev/doc/roadmap-abc123"))
  ∧ truthy "Roadmap" = true
  ∧ or_else "Roadmap" "Untitled" = "Roadmap".
Proof.
  split; [reflexivity|].
  destruct (resolved_target test_URL test_Document_findByPk
              test_Collection_findByPk
              (Some "doc-1") None [] "Roadmap"
              "https://app.outline.dev/doc/roadmap-abc123" eq_refl eq_refl)
    as (_ & Htitle & Hfallback & _).
  split; [exact Htitle | exact Hfallback].
Defined.

(** X9. The document takes precedence.  When both a document id and a
    collection id are given, [resolveTarget] logs the conflict and then
    answers as it does for the document id alone: the collection is not
    looked up, also when the document is missing or has no path, in which
    case the target is not resolved. *)
Theorem document_takes_precedence (env_URL : string)
    (documents : string → settled (option Document))
    (collections : string → settled (option Collection))
    (documentId collectionId : option string) :
  truthy_opt documentId = true → truthy_opt collectionId = true →
  resolveTarget env_URL documents collections documentId collectionId
  = (conflict_warning documentId collectionId
       :: fst (resolveTarget env_URL documents (λ _, Fulfilled None)
                 documentId None),
     snd (resolveTarget env_URL documents (λ _, Fulfilled None)
            documentId None)).
Proof.
  intros Hdoc Hcoll.
  unfold resolveTarget, mbind, Async_bind, await, response, Logger, resolve.
  rewrite Hdoc, Hcoll. simpl.
  destruct (truthy env_URL); simpl; [|done].
  destruct (documents _) as [[document|]|e]; [|done|done].
  by destruct (truthy (doc_path document)).
Qed.

Lemma document_takes_precedence_witness :
  resolveTarget test_URL test_Document_findByPk test_Collection_findByPk
    (Some "non-existent-id") (Some "col-1")
  = ([conflict_warning (Some "non-existent-id") (Some "col-1")],
     Fulfilled ("", "")).
Proof.
  exact (document_takes_precedence test_URL test_Document_findByPk
           test_Collection_findByPk
           (Some "non-existent-id") (Some "col-1") eq_refl eq_refl).
Defined.

(** ** The log of a run *)

Lemma createAttachment_entries env_URL client issueIdentifier title url :
  fst (createAttachment env_URL client issueIdentifier title url) = []
  ∨ fst (createAttachment env_URL client issueIdentifier title url)
    = [issue_missing_entry issueIdentifier]
  ∨ fst (createAttachment env_URL client issueIdentifier title url)
    = [permission_entry issueIdentifier].
Proof.
  unfold createAttachment, mbind, Async_bind, await, response, try_catch,
    Logger, resolve, throw.
  destruct (client_issue client issueIdentifier) as [[issue|]|e]; simpl; auto.
  destruct (client_createAttachment client _) as [[]|e]; simpl; auto;
    destruct (_ || _); simpl; auto.
Qed.

Lemma deleteAttachment_entries client attachmentId :
  fst (deleteAttachment client attachmentId) = [].
Proof.
  unfold deleteAttachment, mbind, Async_bind, await, response, try_catch,
    resolve, throw.
  destruct (client_deleteAttachment client attachmentId) as [[]|e]; simpl;
    try done; by destruct (_ || _).
Qed.

Lemma operation_entries_quiet env_URL client targetTitle url created deleted :
  List.filter is_info
    (operation_entries (operations env_URL client targetTitle url created deleted))
  = []
  ∧ List.filter is_failure_report
      (operation_entries (operations env_URL client targetTitle url created deleted))
    = [].
Proof.
  unfold operations, operation_entries. rewrite fmap_app, concat_app.
  rewrite !List.filter_app.
  assert (Hdeleted :
    concat ((λ op, fst (op_promise op))
            <$> map (λ attachment,
                       {| op_type := delete;
                          op_identifier := identifier (att_issue attachment);
                          op_promise := deleteAttachment client (att_id attachment) |})
                    deleted) = []).
  { induction deleted as [|a deleted IH]; [done|].
    cbn [map fmap list_fmap concat op_promise].
    rewrite deleteAttachment_entries. exact IH. }
  rewrite Hdeleted. cbn [List.filter]. rewrite !app_nil_r.
  induction created as [|id created [IHi IHf]]; [done|].
  cbn [map fmap list_fmap concat op_promise]. rewrite !List.filter_app.
  change (list_fmap _ _ ?f ?l) with (f <$> l). rewrite IHi, IHf.
  destruct (createAttachment_entries env_URL client id targetTitle url)
    as [-> | [-> | ->]]; done.
Qed.

Lemma failure_entries_reports documentId collectionId settledOps :
  List.filter is_info (failure_entries documentId collectionId settledOps) = []
  ∧ length (List.filter is_failure_report
              (failure_entries documentId collectionId settledOps))
    = rejections (snd <$> settledOps).
Proof.
  induction settledOps as [|[op [[]|reason]] rest [IHi IHr]]; [done| |].
  - rewrite fmap_cons. cbn [snd].
    destruct (counts_Fulfilled () (snd <$> rest)) as [_ ->]. done.
  - rewrite fmap_cons. cbn [snd].
    destruct (counts_Rejected reason (snd <$> rest)) as [_ ->].
    change (failure_entries documentId collectionId ((op, Rejected reason) :: rest))
      with (failure_entry documentId collectionId op reason
              :: failure_entries documentId collectionId rest).
    cbn [List.filter]. change (is_info (failure_entry _ _ _ _)) with false.
    change (is_failure_report (failure_entry documentId collectionId op reason))
      with true.
    cbn [length]. by rewrite IHi, IHr.
Qed.

Lemma filter_nil_iff {A} (f : A → bool) (l : list A) :
  List.filter f l = [] ↔ ∀ x, x ∈ l → f x = false.
Proof.
  induction l as [|a l IH]; cbn [List.filter].
  - split; [|done]. by intros _ x ?%elem_of_nil.
  - destruct (f a) eqn:Ha.
    + split; [done|]. intros Hall. rewrite Hall in Ha; [done|left].
    + rewrite IH. split.
      * intros Hall x [-> |Hx]%elem_of_cons; auto.
      * intros Hall x Hx. apply Hall. by right.
Qed.

Lemma completed_entries_quiet env_URL completion client targetTitle url
    created deleted :
  List.filter is_info
    (completed_entries completion
       (operations env_URL client targetTitle url created deleted))
  = []
  ∧ List.filter is_failure_report
      (completed_entries completion
         (operations env_URL client targetTitle url created deleted))
    = [].
Proof.
  destruct (operation_entries_quiet env_URL client targetTitle url created deleted)
    as [Hinfo Hreport].
  rewrite filter_nil_iff in Hinfo. rewrite filter_nil_iff in Hreport.
  split; apply filter_nil_iff; intros entry Hentry;
    apply completed_entries_sub in Hentry; auto.
Qed.

(** X10. The log of a run tells its outcome.  From the diff on, [perform]
    writes the summary, its only entry at the info level, exactly when there
    is an operation; the failed count of the summary is the number of failure
    reports in the log, and the succeeded and failed counts add up to the
    created and deleted ones. *)
Theorem run_log_summary (env_URL : string) (completion : list nat)
    (props : Props) (client : LinearClient) (title attachmentUrl : string)
    (existing : list LinearAttachment) :
  ∃ succeeded failed,
    succeeded + failed
    = length (toCreate (currentIssueIdentifiers props) existing)
      + length (toDelete (currentIssueIdentifiers props) existing)
    ∧ List.filter is_info
        (fst (sync env_URL completion props client title attachmentUrl
                existing))
      = (if (0 <? succeeded + failed)%nat
         then [summary_entry props
                 (length (toCreate (currentIssueIdentifiers props) existing))
                 (length (toDelete (currentIssueIdentifiers props) existing))
                 succeeded failed]
         else [])
    ∧ length (List.filter is_failure_report
                (fst (sync env_URL completion props client title attachmentUrl
                        existing)))
      = failed.
Proof.
  rewrite sync_spec.
  set (created := toCreate (currentIssueIdentifiers props) existing).
  set (deleted := toDelete (currentIssueIdentifiers props) existing).
  set (ops := operations env_URL client (or_else title "Untitled") attachmentUrl
                created deleted).
  exists (fulfilments (settlements ops)), (rejections (settlements ops)).
  assert (Hsum : fulfilments (settlements ops) + rejections (settlements ops)
                 = length created + length deleted).
  { rewrite settled_counts. unfold settlements. rewrite length_fmap.
    apply operations_length. }
  split; [done|]. cbn [fst]. rewrite !List.filter_app.
  destruct (completed_entries_quiet env_URL completion client
              (or_else title "Untitled") attachmentUrl created deleted)
    as [Hinfo Hreport].
  fold ops in Hinfo, Hreport. rewrite Hinfo, Hreport.
  destruct (failure_entries_reports (documentId props) (collectionId props)
              (zip ops (settlements ops))) as [Hinfo' Hreport'].
  rewrite zip_settlements in Hreport'. rewrite Hinfo'.
  rewrite Hsum, <- (operations_length env_URL client (or_else title "Untitled")
                      attachmentUrl created deleted).
  fold ops. cbn [app]. split.
  - by destruct (0 <? length ops)%nat.
  - rewrite length_app, Hreport'. destruct (0 <? length ops)%nat; simpl; lia.
Qed.

(** ** The title of the attachments *)

Lemma resolveTarget_no_report env_URL documents collections documentId
    collectionId :
  List.filter is_failure_report
    (fst (resolveTarget env_URL documents collections documentId collectionId))
  = [].
Proof.
  unfold resolveTarget.
  unfold mbind, Async_bind, await, response, Logger, resolve.
  destruct (truthy_opt documentId); destruct (truthy_opt collectionId);
    destruct (negb (truthy env_URL)); simpl; try done;
    try (destruct (documents _) as [[document|]|e]; simpl; try done;
         by destruct (negb (truthy (doc_path document))));
    destruct (collections _) as [[collection|]|e]; simpl; try done;
    by destruct (negb (truthy (coll_path collection))).
Qed.

Lemma title_client_settlements env_URL accepted targetTitle url desired :
  operation_entries
    (operations env_URL (title_client accepted) targetTitle url desired []) = []
  ∧ settlements
      (operations env_URL (title_client accepted) targetTitle url desired [])
    = (λ _, if String.eqb targetTitle accepted then Fulfilled tt
            else Rejected (ErrorObj "unexpected title")) <$> desired.
Proof.
  unfold operations, operation_entries, settlements. rewrite app_nil_r.
  assert (Hcreate : ∀ id,
    createAttachment env_URL (title_client accepted) id targetTitle url
    = ([], if String.eqb targetTitle accepted then Fulfilled tt
           else Rejected (ErrorObj "unexpected title"))).
  { intros id. unfold createAttachment, mbind, Async_bind, await, response,
      try_catch, title_client.
    cbn [client_issue client_createAttachment input_title].
    by destruct (String.eqb targetTitle accepted). }
  induction desired as [|id desired [IHe IHs]]; [done|].
  cbn [map fmap list_fmap concat op_promise]. rewrite Hcreate. cbn [fst snd app].
  split; [exact IHe | f_equal; exact IHs].
Qed.

Lemma rejections_all_rejected {A B} (e : thrown) (l : list B) :
  rejections ((λ _, @Rejected A e) <$> l) = length l.
Proof.
  unfold rejections. induction l as [|x l IH]; [done|]. cbn. by rewrite IH.
Qed.

(** C8, as amended. With [env.URL] configured, a document with a path and
    an empty title resolves to the title [Untitled]; a collection with a path
    and an empty name, looked up when no document id is given, resolves to
    the title [Untitled Collection].  The attachments of the run are created
    under the resolved title, and under [Untitled] only when that title is
    empty: in a run with a creation and a client that accepts creations
    under one title only, no operation fails exactly when the accepted
    title is that one. *)
Theorem title_placeholder (platform : URLClass) (env_URL : string)
    (documents : string → settled (option Document))
    (collections : string → settled (option Collection)) :
  truthy env_URL = true →
  (∀ documentId collectionId document,
     truthy documentId = true →
     documents documentId = Fulfilled (Some document) →
     truthy (doc_path document) = true →
     doc_title document = "" →
     snd (resolveTarget env_URL documents collections
            (Some documentId) collectionId)
     = Fulfilled ("Untitled", buildEntityUrl env_URL (doc_path document)))
  ∧ (∀ documentId collectionId collection,
       truthy_opt documentId = false →
       truthy collectionId = true →
       collections collectionId = Fulfilled (Some collection) →
       truthy (coll_path collection) = true →
       coll_name collection = "" →
       snd (resolveTarget env_URL documents collections
              documentId (Some collectionId))
       = Fulfilled ("Untitled Collection",
                    buildEntityUrl env_URL (coll_path collection)))
  ∧ (∀ completion props title baseUrl accepted,
       snd (resolveTarget env_URL documents collections
              (documentId props) (collectionId props))
       = Fulfilled (title, baseUrl) →
       truthy baseUrl = true →
       is_Some (URL_parse platform baseUrl) →
       currentIssueIdentifiers props ≠ [] →
       (List.filter is_failure_report
          (fst (perform platform env_URL
                  (λ _, Fulfilled (Some (title_client accepted)))
                  documents collections completion props)) = []
        ↔ accepted = or_else title "Untitled")).
Proof.
  intros Henv. split; [|split].
  - intros documentId collectionId document Hid Hdoc Hpath Htitle.
    unfold resolveTarget, mbind, Async_bind, await, response, Logger, resolve.
    simpl. rewrite Hid, Henv. simpl. rewrite Hdoc, Hpath, Htitle. simpl.
    by destruct (truthy_opt collectionId).
  - intros documentId collectionId collection Hdoc Hid Hcoll Hpath Hname.
    unfold resolveTarget, mbind, Async_bind, await, response, Logger, resolve.
    simpl. rewrite Hdoc, Hid, Henv. simpl. by rewrite Hcoll, Hpath, Hname.
  - intros completion props title baseUrl accepted Htarget Hbase [url Hparse]
      Hdesired.
    pose proof (resolveTarget_no_report env_URL documents collections
                  (documentId props) (collectionId props)) as Hquiet.
    unfold perform, response. rewrite bind_fulfilled.
    destruct (resolveTarget env_URL documents collections
                (documentId props) (collectionId props)) as [entries target].
    cbn [fst snd] in Htarget, Hquiet. subst target.
    rewrite bind_fulfilled, Hbase. cbn [negb app fst].
    rewrite buildAttachmentUrl_cases. unfold attachmentUrlObject.
    rewrite Hparse. cbn [mbind option_bind]. rewrite bind_fulfilled.
    set (attachmentUrl := URL_toString platform _).
    assert (Hfetch : fetchAttachmentsForUrl (title_client accepted) attachmentUrl
                     = ([], Fulfilled [])) by reflexivity.
    rewrite Hfetch, bind_fulfilled. cbn [app fst].
    rewrite sync_spec. cbn [fst].
    assert (Hcreate : toCreate (currentIssueIdentifiers props) []
                      = currentIssueIdentifiers props).
    { rewrite toCreate_unfold. apply filter_all.
      intros id _ Hin. by apply elem_of_nil in Hin. }
    assert (Hdelete : toDelete (currentIssueIdentifiers props) [] = [])
      by (by rewrite toDelete_unfold).
    rewrite Hcreate, Hdelete.
    set (ops := operations env_URL (title_client accepted)
                  (or_else title "Untitled") attachmentUrl
                  (currentIssueIdentifiers props) []).
    destruct (title_client_settlements env_URL accepted
                (or_else title "Untitled") attachmentUrl
                (currentIssueIdentifiers props)) as [Hentries Hsettled].
    fold ops in Hentries, Hsettled.
    rewrite (completed_entries_nil completion ops Hentries). cbn [app].
    rewrite !List.filter_app, Hquiet. cbn [app].
    assert (Hsummary :
      List.filter is_failure_report
        (if (0 <? length ops)%nat
         then [summary_entry props (length (currentIssueIdentifiers props))
                 (length (@nil LinearAttachment))
                 (fulfilments (settlements ops)) (rejections (settlements ops))]
         else []) = []) by (by destruct (0 <? length ops)%nat).
    rewrite Hsummary, app_nil_r.
    destruct (failure_entries_reports (documentId props) (collectionId props)
                (zip ops (settlements ops))) as [_ Hreports].
    rewrite zip_settlements in Hreports.
    assert (Hrejected :
      rejections (settlements ops)
      = if String.eqb (or_else title "Untitled") accepted then 0
        else length (currentIssueIdentifiers props)).
    { rewrite Hsettled.
      destruct (String.eqb (or_else title "Untitled") accepted).
      - apply (counts_all_fulfilled () (currentIssueIdentifiers props)).
      - apply rejections_all_rejected. }
    rewrite Hrejected in Hreports.
    destruct (String.eqb (or_else title "Untitled") accepted) eqn:Haccepted.
    + apply String.eqb_eq in Haccepted.
      split; [done|]. intros _. by apply nil_length_inv.
    + apply String.eqb_neq in Haccepted. split; [|done].
      intros Hnil. rewrite Hnil in Hreports. cbn [length] in Hreports.
      destruct (currentIssueIdentifiers props); done.
Qed.

Lemma title_placeholder_witness :
  truthy test_URL = true
  ∧ snd (resolveTarget test_URL test_Document_findByPk test_Collection_findByPk
           (Some "doc-2") None)
    = Fulfilled ("Untitled", "https://app.outline.dev/doc/untitled-def456")
  ∧ snd (resolveTarget test_URL test_Document_findByPk test_Collection_findByPk
           None (Some "col-1"))
    = Fulfilled ("Untitled Collection",
                 "https://app.outline.dev/collection/eng-xyz789")
  ∧ (List.filter is_failure_report
       (fst (perform PlainURLClass test_URL
               (λ _, Fulfilled (Some (title_client "Untitled Collection")))
               test_Document_findByPk test_Collection_findByPk in_order
               (mkProps None (Some "col-1") "team-1" ["ENG-456"]))) = []
     ↔ "Untitled Collection" = or_else "Untitled Collection" "Untitled").
Proof.
  pose proof (title_placeholder PlainURLClass test_URL test_Document_findByPk
                test_Collection_findByPk eq_refl)
    as (Hdocument & Hcollection & Hrun).
  split; [reflexivity|]. split; [|split].
  - exact (Hdocument "doc-2" None (mkDocument "" "/doc/untitled-def456")
             eq_refl eq_refl eq_refl eq_refl).
  - exact (Hcollection None "col-1" (mkCollection "" "/collection/eng-xyz789")
             eq_refl eq_refl eq_refl eq_refl eq_refl).
  - apply (Hrun in_order (mkProps None (Some "col-1") "team-1" ["ENG-456"])
             "Untitled Collection"
             "https://app.outline.dev/collection/eng-xyz789"
             "Untitled Collection" eq_refl eq_refl).
    + by eexists.
    + discriminate.
Defined.

(** C8, counterexample. A collection with an empty name resolves to the
    title [Untitled Collection], and the run creates the attachment under
    that title: a client that accepts a creation only under the title
    [Untitled] answers it with [success = false]. *)
Lemma collection_placeholder_differs :
  resolveTarget test_URL test_Document_findByPk test_Collection_findByPk
    None (Some "col-1")
  = ([], Fulfilled ("Untitled Collection",
                    "https://app.outline.dev/collection/eng-xyz789"))
  ∧ "Untitled Collection" ≠ "Untitled"
  ∧ test_perform test_URL
      (mkClient (λ _, Fulfilled [])
                (λ id, Fulfilled (Some (test_issue id)))
                (λ input, Fulfilled
                   (String.eqb (input_title input) "Untitled"))
                (λ _, Fulfilled true))
      (mkProps None (Some "col-1") "team-1" ["ENG-456"])
    = ([mkLog Warn "Linear backlink sync operation failed"
          [("documentId", LOpt None); ("collectionId", LOpt (Some "col-1"));
           ("operation", LStr "create"); ("issueIdentifier", LStr "ENG-456");
           ("error", LStr "Linear attachmentCreate returned success=false for issue ENG-456")];
        summary_entry (mkProps None (Some "col-1") "team-1" ["ENG-456"]) 1 0 0 1],
       Fulfilled tt).
Proof. split; [|split]; [vm_compute; reflexivity | discriminate | vm_compute; reflexivity]. Qed.

(** ** The rest of the attachment URL *)

Lemma other_params_idemp name l :
  other_params name (other_params name l) = other_params name l.
Proof.
  unfold other_params. induction l as [|[n v] l IH]; [done|]. simpl.
  destruct (String.eqb n name) eqn:Hn; simpl; [done|]. by rewrite Hn, IH.
Qed.

Lemma other_params_set_first name value l :
  other_params name (set_first name value l) = other_params name l.
Proof.
  induction l as [|[n v] l IH]; [done|]. cbn [set_first].
  destruct (String.eqb n name) eqn:Hn.
  - fold (other_params name l).
    change (other_params name ((n, value) :: other_params name l))
      with (if negb (String.eqb n name)
            then (n, value) :: other_params name (other_params name l)
            else other_params name (other_params name l)).
    change (other_params name ((n, v) :: l))
      with (if negb (String.eqb n name)
            then (n, v) :: other_params name l else other_params name l).
    rewrite Hn. cbn [negb]. apply other_params_idemp.
  - change (other_params name ((n, v) :: set_first name value l))
      with (if negb (String.eqb n name)
            then (n, v) :: other_params name (set_first name value l)
            else other_params name (set_first name value l)).
    change (other_params name ((n, v) :: l))
      with (if negb (String.eqb n name)
            then (n, v) :: other_params name l else other_params name l).
    rewrite Hn. cbn [negb]. by rewrite IH.
Qed.

Lemma other_params_set name value l :
  other_params name (searchParams_set name value l) = other_params name l.
Proof.
  unfold searchParams_set. destruct (existsb _ l).
  - apply other_params_set_first.
  - unfold other_params. rewrite List.filter_app. cbn [List.filter fst].
    rewrite String.eqb_refl. cbn [negb]. by rewrite app_nil_r.
Qed.

Lemma other_params_all name l :
  other_params name l = l → existsb (λ p, String.eqb (fst p) name) l = false.
Proof.
  unfold other_params. induction l as [|[n v] l IH]; [done|]. simpl.
  destruct (String.eqb n name) eqn:Hn; simpl.
  - intros Heq.
    pose proof (List.filter_length_le
                  (λ p : string * string, negb (String.eqb (fst p) name)) l) as Hle.
    rewrite Heq in Hle. simpl in Hle. lia.
  - intros [= Heq]. by apply IH.
Qed.

(** X11. The marker is all that [buildAttachmentUrl] changes.  Under the
    laws of the URL Standard, the URL that it serialises has the scheme,
    host, path and fragment of the parsed base URL; the query parameters of
    the base URL that are not named [ref] are kept, in their order; and when
    the base URL has no parameter named [ref], the marker comes after
    them. *)
Theorem marker_leaves_the_rest (platform : URLClass) (baseUrl : string)
    (parsed : URL platform) :
  URLClass_laws platform →
  URL_parse platform baseUrl = Some parsed →
  ∃ url,
    attachmentUrlObject platform baseUrl = Some url
    ∧ buildAttachmentUrl platform baseUrl
      = ([], Fulfilled (URL_toString platform url))
    ∧ URL_protocol platform url = URL_protocol platform parsed
    ∧ URL_host platform url = URL_host platform parsed
    ∧ URL_pathname platform url = URL_pathname platform parsed
    ∧ URL_hash platform url = URL_hash platform parsed
    ∧ other_params OUTLINE_REF_PARAM (URL_searchParams platform url)
      = other_params OUTLINE_REF_PARAM (URL_searchParams platform parsed)
    ∧ (other_params OUTLINE_REF_PARAM (URL_searchParams platform parsed)
       = URL_searchParams platform parsed →
       URL_searchParams platform url
       = (URL_searchParams platform parsed
          ++ [(OUTLINE_REF_PARAM, OUTLINE_REF_VALUE)])%list).
Proof.
  intros laws Hparse.
  assert (Hobject : attachmentUrlObject platform baseUrl
                    = Some (URL_searchParams_set platform parsed
                              OUTLINE_REF_PARAM OUTLINE_REF_VALUE)).
  { unfold attachmentUrlObject. by rewrite Hparse. }
  exists (URL_searchParams_set platform parsed OUTLINE_REF_PARAM
            OUTLINE_REF_VALUE).
  split; [done|]. split; [by rewrite buildAttachmentUrl_cases, Hobject|].
  split; [apply (law_set_protocol platform laws)|].
  split; [apply (law_set_host platform laws)|].
  split; [apply (law_set_pathname platform laws)|].
  split; [apply (law_set_hash platform laws)|].
  rewrite (law_set_searchParams platform laws). split.
  - apply other_params_set.
  - intros Hnone. apply other_params_all in Hnone.
    unfold searchParams_set. by rewrite Hnone.
Qed.

Lemma marker_leaves_the_rest_witness :
  plain_parse "https://app.outline.dev/doc/a?tab=2&ref=old#top"
  = Some (mkPlainURL "https" "app.outline.dev" "/doc/a"
            (Some [("tab", "2"); ("ref", "old")]) (Some "top"))
  ∧ ∃ url,
      attachmentUrlObject PlainURLClass
        "https://app.outline.dev/doc/a?tab=2&ref=old#top"
      = Some url
      ∧ other_params OUTLINE_REF_PARAM (plain_searchParams url) = [("tab", "2")].
Proof.
  split; [reflexivity|].
  destruct (marker_leaves_the_rest PlainURLClass
              "https://app.outline.dev/doc/a?tab=2&ref=old#top"
              (mkPlainURL "https" "app.outline.dev" "/doc/a"
                 (Some [("tab", "2"); ("ref", "old")]) (Some "top"))
              plain_laws eq_refl)
    as (url & Hobject & _ & _ & _ & _ & _ & Hothers & _).
  exists url. split; [exact Hobject | exact Hothers].
Defined.

(** The same base URL, end to end. *)
Example buildAttachmentUrl_overwrites_ref :
  buildAttachmentUrl PlainURLClass
    "https://app.outline.dev/doc/a?tab=2&ref=old#top"
  = ([], Fulfilled "https://app.outline.dev/doc/a?tab=2&ref=outline-backlink#top").
Proof. vm_compute. reflexivity. Qed.

(** ** What the processor schedules *)

Lemma reconcile_nothing_desired existing : reconcile [] existing = ([], existing).
Proof.
  rewrite reconcile_unfold. f_equal. apply filter_all.
  intros a _ Hin. by apply elem_of_nil in Hin.
Qed.

Lemma collect_identifiers_rejected parseUrl mentions workspaceKey identifiers :
  parseUrl_throws parseUrl mentions = true →
  ∃ e, collect_identifiers parseUrl mentions workspaceKey identifiers
       = ([], Rejected e).
Proof.
  revert identifiers.
  induction mentions as [|mention mentions IH]; intros identifiers; [done|].
  unfold parseUrl_throws. cbn [existsb collect_identifiers].
  fold (parseUrl_throws parseUrl mentions).
  destruct (truthy_opt (href mention)); cbn [andb negb orb]; [|apply IH].
  unfold call, mbind, Async_bind, await.
  destruct (parseUrl _) as [[parsed|]|e]; cbn [is_rejected orb];
    [| |by eauto].
  - intros Hrest. destruct (_ && _).
    + destruct (IH (identifiers ++ [default "" (parsed_id parsed)])%list Hrest)
        as [e ->]. by exists e.
    + destruct (IH identifiers Hrest) as [e ->]. by exists e.
  - intros Hrest. destruct (IH identifiers Hrest) as [e ->]. by exists e.
Qed.

Lemma collect_identifiers_fulfilled parseUrl mentions workspaceKey identifiers :
  parseUrl_throws parseUrl mentions = false →
  ∃ collected,
    collect_identifiers parseUrl mentions workspaceKey identifiers
    = ([], Fulfilled collected)
    ∧ ∀ x, x ∈ collected
           ↔ x ∈ identifiers
             ∨ ∃ mention h parsed,
                 mention ∈ mentions ∧ href mention = Some h ∧ truthy h = true
                 ∧ parseUrl h = Fulfilled (Some parsed)
                 ∧ parsed_id parsed = Some x ∧ truthy x = true
                 ∧ parsed_workspaceKey parsed = workspaceKey.
Proof.
  revert identifiers.
  induction mentions as [|mention mentions IH]; intros identifiers Hthrows.
  - exists identifiers. split; [done|]. intros x. split; [by left|].
    intros [?|(m & ? & ? & Hm & _)]; [done|]. by apply elem_of_nil in Hm.
  - unfold parseUrl_throws in Hthrows. cbn [existsb] in Hthrows.
    apply orb_false_iff in Hthrows as [Hhere Hrest].
    fold (parseUrl_throws parseUrl mentions) in Hrest.
    assert (Hskip : ∀ collected : list string,
      (∀ x h parsed, href mention = Some h → truthy h = true →
                     parseUrl h = Fulfilled (Some parsed) →
                     parsed_id parsed = Some x → truthy x = true →
                     parsed_workspaceKey parsed = workspaceKey → False) →
      (∀ x, x ∈ collected
            ↔ x ∈ identifiers
              ∨ ∃ m h parsed, m ∈ mentions ∧ href m = Some h ∧ truthy h = true
                  ∧ parseUrl h = Fulfilled (Some parsed)
                  ∧ parsed_id parsed = Some x
                  ∧ truthy x = true ∧ parsed_workspaceKey parsed = workspaceKey) →
      ∀ x, x ∈ collected
           ↔ x ∈ identifiers
             ∨ ∃ m h parsed, m ∈ mention :: mentions ∧ href m = Some h
                 ∧ truthy h = true ∧ parseUrl h = Fulfilled (Some parsed)
                 ∧ parsed_id parsed = Some x ∧ truthy x = true
                 ∧ parsed_workspaceKey parsed = workspaceKey).
    { intros collected Hno Hmem x. rewrite Hmem. split.
      - intros [?|(m & h & parsed & Hm & Hrest')]; [by left|].
        right. exists m, h, parsed. split; [by right | done].
      - intros [?|(m & h & parsed & Hm & Hh & Ht & Hp & Hid & Htx & Hk)];
          [by left|].
        apply elem_of_cons in Hm as [->|Hm]; [by destruct (Hno x h parsed)|].
        right. exists m, h, parsed. done. }
    cbn [collect_identifiers]. unfold call, mbind, Async_bind, await.
    destruct (href mention) as [h|] eqn:Hhref;
      cbn [truthy_opt negb default from_option id andb] in *; cycle 1.
    { destruct (IH identifiers Hrest) as (collected & Hcollect & Hmem).
      exists collected. split; [exact Hcollect|].
      apply Hskip; [congruence | exact Hmem]. }
    destruct (truthy h) eqn:Hh; cbn [negb andb] in *; cycle 1.
    { destruct (IH identifiers Hrest) as (collected & Hcollect & Hmem).
      exists collected. split; [exact Hcollect|].
      apply Hskip; [congruence | exact Hmem]. }
    destruct (parseUrl h) as [[parsed|]|e] eqn:Hparsed; [| |done]; cycle 1.
    { destruct (IH identifiers Hrest) as (collected & Hcollect & Hmem).
      exists collected. split; [by rewrite Hcollect|].
      apply Hskip; [congruence | exact Hmem]. }
    destruct (parsed_id parsed) as [issueId|] eqn:Hid;
      cbn [truthy_opt default from_option id andb]; cycle 1.
    { destruct (IH identifiers Hrest) as (collected & Hcollect & Hmem).
      exists collected. split; [by rewrite Hcollect|].
      apply Hskip; [congruence | exact Hmem]. }
    destruct (truthy issueId) eqn:Htid; cbn [andb]; cycle 1.
    { destruct (IH identifiers Hrest) as (collected & Hcollect & Hmem).
      exists collected. split; [by rewrite Hcollect|].
      apply Hskip; [congruence | exact Hmem]. }
    destruct (String.eqb_spec (parsed_workspaceKey parsed) workspaceKey)
      as [Hkey|Hkey]; cbn [andb]; cycle 1.
    { destruct (IH identifiers Hrest) as (collected & Hcollect & Hmem).
      exists collected. split; [by rewrite Hcollect|].
      apply Hskip; [congruence | exact Hmem]. }
    destruct (IH (identifiers ++ [issueId])%list Hrest)
      as (collected & Hcollect & Hmem).
    exists collected. split; [by rewrite Hcollect|].
    intros x. rewrite Hmem, elem_of_app, list_elem_of_singleton. split.
    + intros [[? | ->] | (m & h' & parsed' & Hm & Hrest')].
      * by left.
      * right. exists mention, h, parsed. split; [left|]. done.
      * right. exists m, h', parsed'. split; [by right | done].
    + intros [?|(m & h' & parsed' & Hm & Hh' & Ht & Hp & Hid' & Htx & Hk)];
        [by left; left|].
      apply elem_of_cons in Hm as [->|Hm].
      * left. right. congruence.
      * right. exists m, h', parsed'. done.
Qed.

(** X12. The identifiers that the processor reads from the mentions of a
    document or collection.  When no call of [Linear.parseUrl] throws, they
    are each listed once, and they are exactly the non-empty issue ids that
    [Linear.parseUrl] reads from the non-empty links of mentions whose
    workspace key is the key of the team's integration, and nothing is
    logged.  When a call throws, or when the mentions cannot be read, the
    extraction does not throw: it logs a warning that names the entity and
    yields no identifier, also dropping those read before the throw. *)
Theorem extracted_identifiers (parseUrl : string → settled (option ParsedUrl))
    (isDocument : bool) (entityId : string) (mentions : list Mention)
    (workspaceKey : string) :
  (parseUrl_throws parseUrl mentions = false →
   ∃ identifiers,
     extractLinearIssueIdentifiers parseUrl isDocument entityId
       (Fulfilled mentions) workspaceKey
     = ([], Fulfilled identifiers)
     ∧ NoDup identifiers
     ∧ ∀ x, x ∈ identifiers
            ↔ ∃ mention h parsed,
                mention ∈ mentions ∧ href mention = Some h ∧ truthy h = true
                ∧ parseUrl h = Fulfilled (Some parsed)
                ∧ parsed_id parsed = Some x ∧ truthy x = true
                ∧ parsed_workspaceKey parsed = workspaceKey)
  ∧ (parseUrl_throws parseUrl mentions = true →
     extractLinearIssueIdentifiers parseUrl isDocument entityId
       (Fulfilled mentions) workspaceKey
     = ([extraction_warning isDocument entityId], Fulfilled []))
  ∧ (∀ err,
       extractLinearIssueIdentifiers parseUrl isDocument entityId
         (Rejected err) workspaceKey
       = ([extraction_warning isDocument entityId], Fulfilled [])).
Proof.
  split; [|split].
  - intros Hthrows.
    destruct (collect_identifiers_fulfilled parseUrl mentions workspaceKey []
                Hthrows) as (collected & Hcollect & Hmem).
    exists (Set_values collected). rewrite extractLinearIssueIdentifiers_cases.
    rewrite Hcollect. split; [done|]. split; [apply Set_values_NoDup|].
    intros x. rewrite elem_of_Set_values, Hmem, elem_of_nil. tauto.
  - intros Hthrows.
    destruct (collect_identifiers_rejected parseUrl mentions workspaceKey []
                Hthrows) as [e Hcollect].
    rewrite extractLinearIssueIdentifiers_cases. by rewrite Hcollect.
  - intros err. by rewrite extractLinearIssueIdentifiers_cases.
Qed.

(** The mentions of the test document: two of the team's workspace, one of
    them twice, one of another workspace, one without a link. *)
Example extracted_identifiers_example :
  extractLinearIssueIdentifiers test_parseUrl true "doc-1"
    (Fulfilled test_mentions) "myteam"
  = ([], Fulfilled ["ENG-100"; "ENG-200"]).
Proof. vm_compute. reflexivity. Qed.

(** The same mentions when [Linear.parseUrl] throws on the third one: the
    identifier read from the first is dropped with the rest. *)
Example extraction_stops_at_throw :
  extractLinearIssueIdentifiers throwing_parseUrl true "doc-1"
    (Fulfilled test_mentions) "myteam"
  = ([extraction_warning true "doc-1"], Fulfilled []).
Proof. vm_compute. reflexivity. Qed.

Lemma extraction_throws_warning parseUrl isDocument entityId mentions
    workspaceKey :
  extraction_throws parseUrl mentions = true →
  extractLinearIssueIdentifiers parseUrl isDocument entityId mentions workspaceKey
  = ([extraction_warning isDocument entityId], Fulfilled []).
Proof.
  rewrite extractLinearIssueIdentifiers_cases.
  destruct mentions as [mentions|e]; [|done]. cbn [extraction_throws].
  intros Hthrows.
  destruct (collect_identifiers_rejected parseUrl mentions workspaceKey []
              Hthrows) as [e Hcollect].
  by rewrite Hcollect.
Qed.

Lemma getWorkspaceKey_cases integrations teamId :
  getWorkspaceKey integrations teamId
  = match integrations teamId with
    | Rejected e => ([], Rejected e)
    | Fulfilled None => ([], Fulfilled None)
    | Fulfilled (Some integration) =>
        if truthy_opt (integration_workspaceKey integration)
        then ([], Fulfilled (integration_workspaceKey integration))
        else ([mkLog Warn "Linear integration has no workspace key configured"
                 [("integrationId", LStr (integration_id integration));
                  ("teamId", LStr teamId)]],
              Fulfilled None)
    end.
Proof.
  unfold getWorkspaceKey, response, mbind, Async_bind, await.
  destruct (integrations teamId) as [[integration|]|e]; [|done|done].
  by destruct (truthy_opt (integration_workspaceKey integration)).
Qed.

Lemma schedule_cases queue props :
  schedule queue props
  = match queue props with
    | Fulfilled _ => ([], Fulfilled [props])
    | Rejected e => ([], Rejected e)
    end.
Proof.
  unfold schedule, response, mbind, Async_bind, await.
  by destruct (queue props).
Qed.

Lemma handleDocumentUpdate_job parseUrl integrations documents queue event
    entries jobs props :
  handleDocumentUpdate parseUrl integrations documents queue event
  = (entries, Fulfilled jobs) →
  props ∈ jobs →
  ∃ document integration key published,
    documents (event_documentId event) = Fulfilled (Some document)
    ∧ document_publishedAt document = Some published
    ∧ integrations (document_teamId document) = Fulfilled (Some integration)
    ∧ integration_workspaceKey integration = Some key
    ∧ truthy key = true
    ∧ queue props = Fulfilled tt
    ∧ jobs = [props]
    ∧ props = mkProps (Some (document_id document)) None
                (document_teamId document) (currentIssueIdentifiers props)
    ∧ extractLinearIssueIdentifiers parseUrl true (document_id document)
        (document_mentions document) key
      = (entries, Fulfilled (currentIssueIdentifiers props)).
Proof.
  unfold handleDocumentUpdate, response. intros Hrun Hin.
  destruct (documents (event_documentId event)) as [[document|]|e] eqn:Hdocument;
    [|injection Hrun as _ <-; by apply elem_of_nil in Hin|done].
  rewrite bind_fulfilled in Hrun. cbn [app] in Hrun.
  destruct (document_publishedAt document) as [published|] eqn:Hpublished;
    [|injection Hrun as _ <-; by apply elem_of_nil in Hin].
  rewrite getWorkspaceKey_cases in Hrun.
  destruct (integrations (document_teamId document)) as [[integration|]|e]
    eqn:Hintegration;
    [|injection Hrun as _ <-; by apply elem_of_nil in Hin|done].
  destruct (integration_workspaceKey integration) as [key|] eqn:Hkey;
    cbn [truthy_opt] in Hrun;
    [|injection Hrun as _ <-; by apply elem_of_nil in Hin].
  destruct (truthy key) eqn:Htruthy;
    [|injection Hrun as _ <-; by apply elem_of_nil in Hin].
  rewrite bind_fulfilled in Hrun.
  cbn [truthy_opt negb default from_option id app] in Hrun.
  rewrite Htruthy in Hrun. cbn [negb] in Hrun.
  destruct (extractLinearIssueIdentifiers_NoDup parseUrl true
              (document_id document) (document_mentions document) key)
    as (entries' & identifiers & Hextract & _).
  rewrite Hextract, bind_fulfilled, schedule_cases in Hrun.
  destruct (queue _) as [[]|e] eqn:Hqueue; [|done].
  cbn [fst snd] in Hrun. injection Hrun as <- <-.
  apply list_elem_of_singleton in Hin as ->.
  exists document, integration, key, published.
  rewrite Hextract, !app_nil_r. cbn [currentIssueIdentifiers]. done.
Qed.

Lemma handleCollectionUpdate_job parseUrl integrations collections queue event
    entries jobs props :
  handleCollectionUpdate parseUrl integrations collections queue event
  = (entries, Fulfilled jobs) →
  props ∈ jobs →
  ∃ collection integration key,
    collections (event_collectionId event) = Fulfilled (Some collection)
    ∧ integrations (collection_teamId collection) = Fulfilled (Some integration)
    ∧ integration_workspaceKey integration = Some key
    ∧ truthy key = true
    ∧ queue props = Fulfilled tt
    ∧ jobs = [props]
    ∧ props = mkProps None (Some (collection_id collection))
                (collection_teamId collection) (currentIssueIdentifiers props)
    ∧ extractLinearIssueIdentifiers parseUrl false (collection_id collection)
        (collection_mentions collection) key
      = (entries, Fulfilled (currentIssueIdentifiers props)).
Proof.
  unfold handleCollectionUpdate, response. intros Hrun Hin.
  destruct (collections (event_collectionId event)) as [[collection|]|e]
    eqn:Hcollection;
    [|injection Hrun as _ <-; by apply elem_of_nil in Hin|done].
  rewrite bind_fulfilled in Hrun. cbn [app] in Hrun.
  rewrite getWorkspaceKey_cases in Hrun.
  destruct (integrations (collection_teamId collection)) as [[integration|]|e]
    eqn:Hintegration;
    [|injection Hrun as _ <-; by apply elem_of_nil in Hin|done].
  destruct (integration_workspaceKey integration) as [key|] eqn:Hkey;
    cbn [truthy_opt] in Hrun;
    [|injection Hrun as _ <-; by apply elem_of_nil in Hin].
  destruct (truthy key) eqn:Htruthy;
    [|injection Hrun as _ <-; by apply elem_of_nil in Hin].
  rewrite bind_fulfilled in Hrun.
  cbn [truthy_opt negb default from_option id app] in Hrun.
  rewrite Htruthy in Hrun. cbn [negb] in Hrun.
  destruct (extractLinearIssueIdentifiers_NoDup parseUrl false
              (collection_id collection) (collection_mentions collection) key)
    as (entries' & identifiers & Hextract & _).
  rewrite Hextract, bind_fulfilled, schedule_cases in Hrun.
  destruct (queue _) as [[]|e] eqn:Hqueue; [|done].
  cbn [fst snd] in Hrun. injection Hrun as <- <-.
  apply list_elem_of_singleton in Hin as ->.
  exists collection, integration, key.
  rewrite Hextract, !app_nil_r. cbn [currentIssueIdentifiers]. done.
Qed.

Lemma handleDelete_cases integrations queue documentId collectionId teamId :
  handleDelete integrations queue documentId collectionId teamId
  = if truthy_opt teamId
    then match integrations (default "" teamId) with
         | Fulfilled (Some _) =>
             match queue (mkProps documentId collectionId (default "" teamId) [])
             with
             | Fulfilled _ =>
                 ([], Fulfilled [mkProps documentId collectionId
                                   (default "" teamId) []])
             | Rejected e => ([], Rejected e)
             end
         | Fulfilled None => ([], Fulfilled [])
         | Rejected e => ([], Rejected e)
         end
    else ([], Fulfilled []).
Proof.
  unfold handleDelete, response. destruct (truthy_opt teamId); [|done].
  destruct (integrations (default "" teamId)) as [[integration|]|e];
    [|done|done].
  rewrite bind_fulfilled, schedule_cases. by destruct (queue _).
Qed.

(** X13. A job for a document is scheduled only for a published document
    of a team with an integration that has a workspace key.  It is then the
    only job, and the queue has taken it; it names the document by its own
    id, no collection, and the team of the document, not of the event; and
    its identifiers and the log of the processor are those of the extraction
    under that key. *)
Theorem document_update_job (parseUrl : string → settled (option ParsedUrl))
    (integrations : string → settled (option Integration))
    (documents : string → settled (option DocumentModel))
    (collections : string → settled (option CollectionModel))
    (queue : Props → settled unit)
    (event : Event) (entries : list LogEntry) (jobs : list Props)
    (props : Props) :
  is_document_update (event_name event) = true →
  Processor_perform parseUrl integrations documents collections queue event
  = (entries, Fulfilled jobs) →
  props ∈ jobs →
  ∃ document integration key published,
    documents (event_documentId event) = Fulfilled (Some document)
    ∧ document_publishedAt document = Some published
    ∧ integrations (document_teamId document) = Fulfilled (Some integration)
    ∧ integration_workspaceKey integration = Some key
    ∧ truthy key = true
    ∧ queue props = Fulfilled tt
    ∧ jobs = [props]
    ∧ props = mkProps (Some (document_id document)) None
                (document_teamId document) (currentIssueIdentifiers props)
    ∧ extractLinearIssueIdentifiers parseUrl true (document_id document)
        (document_mentions document) key
      = (entries, Fulfilled (currentIssueIdentifiers props)).
Proof.
  unfold is_document_update, Processor_perform. intros -> Hrun Hin.
  by eapply handleDocumentUpdate_job.
Qed.

Lemma document_update_job_witness :
  test_process (mkEvent "documents.publish" "doc-1" "col-9" (Some "team-9"))
  = ([], Fulfilled [mkProps (Some "doc-1") None "team-1" ["ENG-100"; "ENG-200"]])
  ∧ ∃ document,
      test_document_models "doc-1" = Fulfilled (Some document)
      ∧ is_Some (document_publishedAt document)
      ∧ document_teamId document = "team-1".
Proof.
  assert (Hrun : test_process
                   (mkEvent "documents.publish" "doc-1" "col-9" (Some "team-9"))
                 = ([], Fulfilled [mkProps (Some "doc-1") None "team-1"
                                     ["ENG-100"; "ENG-200"]]))
    by (vm_compute; reflexivity).
  split; [exact Hrun|].
  destruct (document_update_job test_parseUrl test_integrations
              test_document_models test_collection_models test_schedule
              (mkEvent "documents.publish" "doc-1" "col-9" (Some "team-9"))
              [] _ (mkProps (Some "doc-1") None "team-1" ["ENG-100"; "ENG-200"])
              eq_refl Hrun ltac:(left))
    as (document & integration & key & published & Hdocument & Hpublished
        & _ & _ & _ & _ & _ & Hprops & _).
  exists document. split; [exact Hdocument|]. split; [by rewrite Hpublished|].
  injection Hprops as _ Hteam. exact (eq_sym Hteam).
Defined.

(** Nothing is scheduled for a draft. *)
Example draft_is_not_synced :
  test_process (mkEvent "documents.publish" "doc-draft" "" (Some "team-1"))
  = ([], Fulfilled []).
Proof. vm_compute. reflexivity. Qed.

(** X14. A run of the processor that fulfils has scheduled at most one job.
    A job names a document or a collection and never both, so that the
    conflict warning of [resolveTarget] does not arise from it; its
    identifiers are listed once each, and so are the creations of the task
    that runs it, whatever attachments exist. *)
Theorem scheduled_job_invariant
    (parseUrl : string → settled (option ParsedUrl))
    (integrations : string → settled (option Integration))
    (documents : string → settled (option DocumentModel))
    (collections : string → settled (option CollectionModel))
    (queue : Props → settled unit) (event : Event)
    (entries : list LogEntry) (jobs : list Props) :
  Processor_perform parseUrl integrations documents collections queue event
  = (entries, Fulfilled jobs) →
  (length jobs ≤ 1)%nat
  ∧ ∀ props, props ∈ jobs →
      one_target props
      ∧ truthy_opt (documentId props) && truthy_opt (collectionId props) = false
      ∧ NoDup (currentIssueIdentifiers props)
      ∧ ∀ existing, NoDup (toCreate (currentIssueIdentifiers props) existing).
Proof.
  assert (Hgood : ∀ props,
    one_target props → NoDup (currentIssueIdentifiers props) →
    one_target props
    ∧ truthy_opt (documentId props) && truthy_opt (collectionId props) = false
    ∧ NoDup (currentIssueIdentifiers props)
    ∧ ∀ existing, NoDup (toCreate (currentIssueIdentifiers props) existing)).
  { intros props Hone Hnd. split; [done|]. split; [|split; [done|]].
    - destruct Hone as [[_ ->]|[-> _]]; [apply andb_false_r | done].
    - intros existing. rewrite toCreate_unfold. by apply NoDup_filter. }
  assert (Hnone : ∀ entries',
    (entries', @Fulfilled (list Props) []) = (entries, Fulfilled jobs) →
    (length jobs ≤ 1)%nat
    ∧ ∀ props, props ∈ jobs →
        one_target props
        ∧ truthy_opt (documentId props) && truthy_opt (collectionId props) = false
        ∧ NoDup (currentIssueIdentifiers props)
        ∧ ∀ existing, NoDup (toCreate (currentIssueIdentifiers props) existing)).
  { intros entries' [= _ <-]. split; [simpl; lia|].
    intros props Hin. by apply elem_of_nil in Hin. }
  assert (Hone : (∀ props, props ∈ jobs →
                    jobs = [props] ∧ one_target props
                    ∧ NoDup (currentIssueIdentifiers props)) →
    (length jobs ≤ 1)%nat
    ∧ ∀ props, props ∈ jobs →
        one_target props
        ∧ truthy_opt (documentId props) && truthy_opt (collectionId props) = false
        ∧ NoDup (currentIssueIdentifiers props)
        ∧ ∀ existing, NoDup (toCreate (currentIssueIdentifiers props) existing)).
  { intros Hjob. split.
    - destruct jobs as [|props jobs']; [simpl; lia|].
      destruct (Hjob props ltac:(left)) as [Hjobs _].
      injection Hjobs as ->. simpl. lia.
    - intros props Hin. destruct (Hjob props Hin) as (_ & ? & ?).
      by apply Hgood. }
  assert (Hdelete : ∀ target1 target2 team,
    one_target (mkProps target1 target2 (default "" team) []) →
    handleDelete integrations queue target1 target2 team
    = (entries, Fulfilled jobs) →
    (length jobs ≤ 1)%nat
    ∧ ∀ props, props ∈ jobs →
        one_target props
        ∧ truthy_opt (documentId props) && truthy_opt (collectionId props)
          = false
        ∧ NoDup (currentIssueIdentifiers props)
        ∧ ∀ existing, NoDup (toCreate (currentIssueIdentifiers props) existing)).
  { intros target1 target2 team Htarget. rewrite handleDelete_cases.
    destruct (truthy_opt team); [|apply Hnone].
    destruct (integrations (default "" team)) as [[integration|]|e];
      [|apply Hnone|done].
    destruct (queue _) as [[]|e]; [|done]. intros [= _ <-].
    apply Hone. intros props Hin. apply list_elem_of_singleton in Hin as ->.
    split; [done|]. split; [done|]. apply NoDup_nil_2. }
  unfold Processor_perform.
  destruct (_ || _).
  { intros Hrun. apply Hone. intros props Hin.
    destruct (handleDocumentUpdate_job _ _ _ _ _ _ _ _ Hrun Hin)
      as (document & integration & key & published & _ & _ & _ & _ & _ & _
          & Hjobs & Hprops & Hextract).
    split; [done|]. split.
    - left. rewrite Hprops. cbn. eauto.
    - destruct (extractLinearIssueIdentifiers_NoDup parseUrl true
                  (document_id document) (document_mentions document) key)
        as (entries' & identifiers & Hextract' & Hnd).
      rewrite Hextract in Hextract'. by injection Hextract' as _ ->. }
  destruct (_ || _).
  { apply Hdelete. left. cbn. eauto. }
  destruct (String.eqb _ "collections.update").
  { intros Hrun. apply Hone. intros props Hin.
    destruct (handleCollectionUpdate_job _ _ _ _ _ _ _ _ Hrun Hin)
      as (collection & integration & key & _ & _ & _ & _ & _
          & Hjobs & Hprops & Hextract).
    split; [done|]. split.
    - right. rewrite Hprops. cbn. eauto.
    - destruct (extractLinearIssueIdentifiers_NoDup parseUrl false
                  (collection_id collection) (collection_mentions collection) key)
        as (entries' & identifiers & Hextract' & Hnd).
      rewrite Hextract in Hextract'. by injection Hextract' as _ ->. }
  destruct (String.eqb _ "collections.delete").
  { apply Hdelete. right. cbn. eauto. }
  apply Hnone.
Qed.

Lemma scheduled_job_invariant_witness :
  test_process (mkEvent "documents.publish" "doc-1" "col-9" (Some "team-9"))
  = ([], Fulfilled [mkProps (Some "doc-1") None "team-1" ["ENG-100"; "ENG-200"]])
  ∧ one_target (mkProps (Some "doc-1") None "team-1" ["ENG-100"; "ENG-200"])
  ∧ NoDup (toCreate ["ENG-100"; "ENG-200"] [test_attachment "a1" "ENG-200"]).
Proof.
  assert (Hrun : test_process
                   (mkEvent "documents.publish" "doc-1" "col-9" (Some "team-9"))
                 = ([], Fulfilled [mkProps (Some "doc-1") None "team-1"
                                     ["ENG-100"; "ENG-200"]]))
    by (vm_compute; reflexivity).
  split; [exact Hrun|].
  destruct (scheduled_job_invariant test_parseUrl test_integrations
              test_document_models test_collection_models test_schedule
              _ _ _ Hrun) as [_ Hjobs].
  destruct (Hjobs (mkProps (Some "doc-1") None "team-1" ["ENG-100"; "ENG-200"])
              ltac:(left)) as (Htarget & _ & _ & Hcreate).
  split; [exact Htarget|]. exact (Hcreate [test_attachment "a1" "ENG-200"]).
Defined.

(** X15. A delete event asks for the removal of every backlink.  For the
    events [documents.delete], [documents.permanent_delete] and
    [collections.delete] the processor logs nothing.  It looks up the
    integration when the event carries a team id, and schedules a job when
    the team has one; the rejection of the lookup or of the queue rejects
    the run.  A run that fulfils has therefore scheduled a job exactly when
    the event carries a team id and the team has an integration; the job has
    no identifier, so that the diff of the task creates nothing and deletes
    all the existing attachments. *)
Theorem delete_event_removes_all
    (parseUrl : string → settled (option ParsedUrl))
    (integrations : string → settled (option Integration))
    (documents : string → settled (option DocumentModel))
    (collections : string → settled (option CollectionModel))
    (queue : Props → settled unit) (event : Event) :
  is_delete (event_name event) = true →
  Processor_perform parseUrl integrations documents collections queue event
  = (if truthy_opt (event_teamId event)
     then match integrations (default "" (event_teamId event)) with
          | Fulfilled (Some _) =>
              match queue (delete_job event) with
              | Fulfilled _ => ([], Fulfilled [delete_job event])
              | Rejected reason => ([], Rejected reason)
              end
          | Fulfilled None => ([], Fulfilled [])
          | Rejected reason => ([], Rejected reason)
          end
     else ([], Fulfilled []))
  ∧ ∀ entries jobs,
      Processor_perform parseUrl integrations documents collections queue event
      = (entries, Fulfilled jobs) →
      entries = []
      ∧ (jobs ≠ []
         ↔ truthy_opt (event_teamId event) = true
           ∧ ∃ integration,
               integrations (default "" (event_teamId event))
               = Fulfilled (Some integration))
      ∧ ∀ props, props ∈ jobs →
          jobs = [props]
          ∧ teamId props = default "" (event_teamId event)
          ∧ currentIssueIdentifiers props = []
          ∧ ∀ existing,
              reconcile (currentIssueIdentifiers props) existing = ([], existing).
Proof.
  intros Hname.
  assert (Hrun :
    Processor_perform parseUrl integrations documents collections queue event
    = (if truthy_opt (event_teamId event)
       then match integrations (default "" (event_teamId event)) with
            | Fulfilled (Some _) =>
                match queue (delete_job event) with
                | Fulfilled _ => ([], Fulfilled [delete_job event])
                | Rejected reason => ([], Rejected reason)
                end
            | Fulfilled None => ([], Fulfilled [])
            | Rejected reason => ([], Rejected reason)
            end
       else ([], Fulfilled []))).
  { unfold is_delete in Hname. unfold Processor_perform, delete_job.
    destruct (String.eqb_spec (event_name event) "documents.delete") as [->|_];
      [apply handleDelete_cases|].
    destruct (String.eqb_spec (event_name event) "documents.permanent_delete")
      as [->|_]; [apply handleDelete_cases|].
    destruct (String.eqb_spec (event_name event) "collections.delete")
      as [->|_]; [apply handleDelete_cases | done]. }
  split; [exact Hrun|]. rewrite Hrun. clear Hrun.
  intros entries jobs.
  destruct (truthy_opt (event_teamId event)).
  - destruct (integrations (default "" (event_teamId event)))
      as [[integration|]|e]; [| |done].
    + destruct (queue (delete_job event)) as [[]|e]; [|done].
      intros [= <- <-]. split; [done|]. split.
      * split; [by eauto|done].
      * intros props Hin. apply list_elem_of_singleton in Hin as ->.
        split; [done|].
        assert (Hjob : teamId (delete_job event) = default "" (event_teamId event)
                       ∧ currentIssueIdentifiers (delete_job event) = []).
        { unfold delete_job. by destruct (String.eqb _ _). }
        destruct Hjob as [Hteam Hids]. rewrite Hids.
        split; [done|]. split; [done|].
        intros existing. apply reconcile_nothing_desired.
    + intros [= <- <-]. split; [done|]. split.
      * split; [done|]. intros [_ [? ?]]. done.
      * intros props Hin. by apply elem_of_nil in Hin.
  - intros [= <- <-]. split; [done|]. split.
    + split; [done|]. intros [? _]. done.
    + intros props Hin. by apply elem_of_nil in Hin.
Qed.

Lemma delete_event_removes_all_witness :
  test_process (mkEvent "documents.delete" "doc-1" "col-1" (Some "team-1"))
  = ([], Fulfilled [mkProps (Some "doc-1") None "team-1" []])
  ∧ reconcile [] [test_attachment "a1" "ENG-1"; test_attachment "a2" "ENG-2"]
    = ([], [test_attachment "a1" "ENG-1"; test_attachment "a2" "ENG-2"]).
Proof.
  destruct (delete_event_removes_all test_parseUrl test_integrations
              test_document_models test_collection_models test_schedule
              (mkEvent "documents.delete" "doc-1" "col-1" (Some "team-1"))
              eq_refl) as (Hrun & Hjobs).
  split; [exact Hrun|].
  destruct (Hjobs _ _ Hrun) as (_ & _ & Hjob).
  destruct (Hjob (mkProps (Some "doc-1") None "team-1" []) ltac:(left))
    as (_ & _ & _ & Hdiff).
  exact (Hdiff [test_attachment "a1" "ENG-1"; test_attachment "a2" "ENG-2"]).
Defined.

(** A lookup of the integration that fails rejects the run of the
    processor. *)
Example failed_lookup_rejects_processor :
  Processor_perform test_parseUrl failing_lookup test_document_models
    test_collection_models test_schedule
    (mkEvent "documents.delete" "doc-1" "col-1" (Some "team-1"))
  = ([], Rejected (ErrorObj "connection refused")).
Proof. vm_compute. reflexivity. Qed.

(** X16. A content that cannot be read removes every backlink.  When the
    extraction meets a throw on a published document, in the helpers that
    read the mentions or in [Linear.parseUrl], it logs a warning that names
    the document and yields no identifier, and the processor still schedules
    the job: the diff of the task then creates nothing and deletes all the
    existing attachments of the document. *)
Theorem unreadable_content_removes_all
    (parseUrl : string → settled (option ParsedUrl))
    (integrations : string → settled (option Integration))
    (documents : string → settled (option DocumentModel))
    (collections : string → settled (option CollectionModel))
    (queue : Props → settled unit)
    (event : Event) (document : DocumentModel) (integration : Integration)
    (published key : string) :
  is_document_update (event_name event) = true →
  documents (event_documentId event) = Fulfilled (Some document) →
  document_publishedAt document = Some published →
  integrations (document_teamId document) = Fulfilled (Some integration) →
  integration_workspaceKey integration = Some key →
  truthy key = true →
  extraction_throws parseUrl (document_mentions document) = true →
  queue (mkProps (Some (document_id document)) None
           (document_teamId document) []) = Fulfilled tt →
  Processor_perform parseUrl integrations documents collections queue event
  = ([extraction_warning true (document_id document)],
     Fulfilled [mkProps (Some (document_id document)) None
                  (document_teamId document) []])
  ∧ ∀ existing, reconcile [] existing = ([], existing).
Proof.
  unfold is_document_update, Processor_perform.
  intros -> Hdocument Hpublished Hintegration Hkey Htruthy Hmentions Hqueue.
  split; [|apply reconcile_nothing_desired].
  unfold handleDocumentUpdate, response.
  rewrite Hdocument, bind_fulfilled, Hpublished, getWorkspaceKey_cases.
  rewrite Hintegration, Hkey. cbn [truthy_opt]. rewrite Htruthy.
  rewrite bind_fulfilled. cbn [truthy_opt negb default from_option id].
  rewrite Htruthy. cbn [negb].
  rewrite (extraction_throws_warning _ _ _ _ _ Hmentions), bind_fulfilled.
  rewrite schedule_cases, Hqueue. reflexivity.
Qed.

Lemma unreadable_content_removes_all_witness :
  test_process
    (mkEvent "documents.update.debounced" "doc-broken" "" (Some "team-1"))
  = ([extraction_warning true "doc-broken"],
     Fulfilled [mkProps (Some "doc-broken") None "team-1" []]).
Proof.
  exact (proj1 (unreadable_content_removes_all test_parseUrl test_integrations
                  test_document_models test_collection_models test_schedule
                  (mkEvent "documents.update.debounced" "doc-broken" ""
                     (Some "team-1"))
                  (mkDocumentModel "doc-broken" "team-1" (Some "2024-01-01")
                     (Rejected (ErrorObj "Invalid content")))
                  (mkIntegration "integration-1" (Some "myteam"))
                  "2024-01-01" "myteam"
                  eq_refl eq_refl eq_refl eq_refl eq_refl eq_refl eq_refl
                  eq_refl)).
Defined.

(** The warning of the scenario, as it is logged. *)
Example extraction_warning_names_the_document :
  extraction_warning true "doc-broken"
  = mkLog Warn "Failed to extract Linear issue identifiers from document"
      [("documentId", LStr "doc-broken")].
Proof. reflexivity. Qed.

(** X17. A job for a collection is scheduled only for an existing
    collection of a team with an integration that has a workspace key; there
    is no publication gate.  It is then the only job, and the queue has
    taken it; it names the collection by its own id, no document, and the
    team of the collection; and its identifiers and the log of the processor
    are those of the extraction. *)
Theorem collection_update_job (parseUrl : string → settled (option ParsedUrl))
    (integrations : string → settled (option Integration))
    (documents : string → settled (option DocumentModel))
    (collections : string → settled (option CollectionModel))
    (queue : Props → settled unit)
    (event : Event) (entries : list LogEntry) (jobs : list Props)
    (props : Props) :
  event_name event = "collections.update" →
  Processor_perform parseUrl integrations documents collections queue event
  = (entries, Fulfilled jobs) →
  props ∈ jobs →
  ∃ collection integration key,
    collections (event_collectionId event) = Fulfilled (Some collection)
    ∧ integrations (collection_teamId collection) = Fulfilled (Some integration)
    ∧ integration_workspaceKey integration = Some key
    ∧ truthy key = true
    ∧ queue props = Fulfilled tt
    ∧ jobs = [props]
    ∧ props = mkProps None (Some (collection_id collection))
                (collection_teamId collection) (currentIssueIdentifiers props)
    ∧ extractLinearIssueIdentifiers parseUrl false (collection_id collection)
        (collection_mentions collection) key
      = (entries, Fulfilled (currentIssueIdentifiers props)).
Proof.
  unfold Processor_perform. intros -> Hrun Hin.
  by eapply handleCollectionUpdate_job.
Qed.

Lemma collection_update_job_witness :
  test_process (mkEvent "collections.update" "" "col-1" None)
  = ([], Fulfilled [mkProps None (Some "col-1") "team-1" ["ENG-100"; "ENG-200"]])
  ∧ ∃ collection,
      test_collection_models "col-1" = Fulfilled (Some collection)
      ∧ collection_teamId collection = "team-1".
Proof.
  assert (Hrun : test_process (mkEvent "collections.update" "" "col-1" None)
                 = ([], Fulfilled [mkProps None (Some "col-1") "team-1"
                                     ["ENG-100"; "ENG-200"]]))
    by (vm_compute; reflexivity).
  split; [exact Hrun|].
  destruct (collection_update_job test_parseUrl test_integrations
              test_document_models test_collection_models test_schedule
              (mkEvent "collections.update" "" "col-1" None)
              [] _ (mkProps None (Some "col-1") "team-1" ["ENG-100"; "ENG-200"])
              eq_refl Hrun ltac:(left))
    as (collection & integration & key & Hcollection & _ & _ & _ & _ & _
        & Hprops & _).
  exists collection. split; [exact Hcollection|].
  injection Hprops as _ Hteam. exact (eq_sym Hteam).
Defined.

(** ** Runs that meet no error, and runs that stop early *)

Lemma successful_operations env_URL client targetTitle url created deleted :
  (∀ id, id ∈ created →
     ∃ issue, client_issue client id = Fulfilled (Some issue)
              ∧ client_createAttachment client
                  (create_input env_URL issue targetTitle url) = Fulfilled true) →
  (∀ a, a ∈ deleted → client_deleteAttachment client (att_id a) = Fulfilled true) →
  operation_entries (operations env_URL client targetTitle url created deleted) = []
  ∧ settlements (operations env_URL client targetTitle url created deleted)
    = (λ _, Fulfilled tt) <$> (operations env_URL client targetTitle url created deleted).
Proof.
  intros Hcreated Hdeleted. unfold operations, operation_entries, settlements.
  rewrite !fmap_app, concat_app.
  assert (Hd :
    concat ((λ op, fst (op_promise op))
            <$> map (λ attachment,
                       {| op_type := delete;
                          op_identifier := identifier (att_issue attachment);
                          op_promise := deleteAttachment client (att_id attachment) |})
                    deleted) = []
    ∧ (λ op, snd (op_promise op))
      <$> map (λ attachment,
                 {| op_type := delete;
                    op_identifier := identifier (att_issue attachment);
                    op_promise := deleteAttachment client (att_id attachment) |})
              deleted
      = (λ _, Fulfilled tt)
        <$> map (λ attachment,
                   {| op_type := delete;
                      op_identifier := identifier (att_issue attachment);
                      op_promise := deleteAttachment client (att_id attachment) |})
                deleted).
  { clear Hcreated. induction deleted as [|a deleted IH]; [done|].
    destruct IH as [IHe IHs]; [intros x Hx; apply Hdeleted; by right|].
    assert (Hcall : deleteAttachment client (att_id a) = ([], Fulfilled tt)).
    { unfold deleteAttachment, mbind, Async_bind, await, response, try_catch.
      rewrite (Hdeleted a) by left. reflexivity. }
    cbn [map fmap list_fmap concat op_promise]. rewrite Hcall. cbn [fst snd app].
    split; [exact IHe | f_equal; exact IHs]. }
  destruct Hd as [-> ->]. rewrite app_nil_r.
  clear Hdeleted. induction created as [|id created IH]; [done|].
  destruct IH as [IHe IHs]; [intros x Hx; apply Hcreated; by right|].
  destruct (Hcreated id ltac:(left)) as (issue & Hissue & Hcall).
  assert (Hcreate : createAttachment env_URL client id targetTitle url
                    = ([], Fulfilled tt)).
  { unfold createAttachment, mbind, Async_bind, await, response, try_catch.
    rewrite Hissue. unfold create_input in Hcall. rewrite Hcall. reflexivity. }
  cbn [map fmap list_fmap concat op_promise app]. rewrite Hcreate.
  cbn [fst snd app]. split; [exact IHe|].
  f_equal. apply (app_inv_head_iff []). exact IHs.
Qed.

(** X18. A run that meets no error logs the summary alone.  When, for
    every identifier to create, the issue lookup resolves and
    [attachmentCreate] answers with success for the id of the resolved issue,
    the title of the target, the subtitle [Outline], the attachment URL and
    the icon under [env.URL], and the deletion of every attachment to delete
    answers with success, the log of the run from the diff on is the summary
    with every operation succeeded, or empty when there is no operation. *)
Theorem successful_run (env_URL : string) (completion : list nat)
    (props : Props) (client : LinearClient) (title attachmentUrl : string)
    (existing : list LinearAttachment) :
  (∀ id, id ∈ toCreate (currentIssueIdentifiers props) existing →
     ∃ issue, client_issue client id = Fulfilled (Some issue)
              ∧ client_createAttachment client
                  (create_input env_URL issue (or_else title "Untitled")
                     attachmentUrl) = Fulfilled true) →
  (∀ a, a ∈ toDelete (currentIssueIdentifiers props) existing →
        client_deleteAttachment client (att_id a) = Fulfilled true) →
  sync env_URL completion props client title attachmentUrl existing
  = (if (0 <? length (toCreate (currentIssueIdentifiers props) existing)
              + length (toDelete (currentIssueIdentifiers props) existing))%nat
     then [summary_entry props
             (length (toCreate (currentIssueIdentifiers props) existing))
             (length (toDelete (currentIssueIdentifiers props) existing))
             (length (toCreate (currentIssueIdentifiers props) existing)
              + length (toDelete (currentIssueIdentifiers props) existing))
             0]
     else [],
     Fulfilled tt).
Proof.
  intros Hcreated Hdeleted. rewrite sync_spec.
  destruct (successful_operations env_URL client (or_else title "Untitled")
              attachmentUrl _ _ Hcreated Hdeleted) as [Hquiet Hsettled].
  rewrite (completed_entries_nil _ _ Hquiet).
  rewrite Hsettled, failure_entries_none.
  - match goal with
    | |- context [fulfilments ((λ _, Fulfilled ()) <$> ?ops)] =>
        destruct (counts_all_fulfilled () ops) as [-> ->]
    end.
    rewrite operations_length. reflexivity.
  - apply Forall_forall. intros r Hr.
    by apply list_elem_of_fmap in Hr as (? & -> & _).
Qed.

Lemma successful_run_witness :
  sync test_URL in_order (document_props ["ENG-456"])
    (test_client [] (Fulfilled true) (Fulfilled true)) "Roadmap" "url"
    [test_attachment "attachment-to-delete" "ENG-1"]
  = ([summary_entry (document_props ["ENG-456"]) 1 1 2 0], Fulfilled tt).
Proof.
  apply (successful_run test_URL in_order (document_props ["ENG-456"])
           (test_client [] (Fulfilled true) (Fulfilled true)) "Roadmap" "url"
           [test_attachment "attachment-to-delete" "ENG-1"]).
  - intros id _. exists (test_issue id). split; reflexivity.
  - intros a _. reflexivity.
Defined.

(** X19. A missing document ends the run before the remote is asked.
    When a document id is given and the document does not exist, [perform]
    fulfils whatever the client answers: it logs the note that the target was
    not found, after the conflict warning when a collection id was given as
    well, and nothing else. *)
Theorem missing_document_skips_remote (platform : URLClass) (env_URL : string)
    (getClientForTeam : string → settled (option LinearClient))
    (documents : string → settled (option Document))
    (collections : string → settled (option Collection))
    (completion : list nat) (props : Props) (client : LinearClient) :
  truthy env_URL = true →
  truthy_opt (documentId props) = true →
  documents (default "" (documentId props)) = Fulfilled None →
  getClientForTeam (teamId props) = Fulfilled (Some client) →
  perform platform env_URL getClientForTeam documents collections completion
    props
  = ((if truthy_opt (collectionId props)
      then [conflict_warning (documentId props) (collectionId props)]
      else []) ++ [target_missing_entry props],
     Fulfilled tt)%list.
Proof.
  intros Henv Hid Hmissing Hclient. unfold perform, response.
  rewrite Hclient, bind_fulfilled.
  unfold resolveTarget, mbind, Async_bind, await, response, Logger, resolve.
  rewrite Hid, Henv, Hmissing. cbn [andb negb].
  by destruct (truthy_opt (collectionId props)).
Qed.

Lemma missing_document_skips_remote_witness :
  test_perform test_URL (test_client [] (Fulfilled true) (Fulfilled true))
    (mkProps (Some "non-existent-id") None "team-1" [])
  = ([target_missing_entry (mkProps (Some "non-existent-id") None "team-1" [])],
     Fulfilled tt).
Proof.
  exact (missing_document_skips_remote PlainURLClass test_URL _
           test_Document_findByPk test_Collection_findByPk in_order
           (mkProps (Some "non-existent-id") None "team-1" [])
           (test_client [] (Fulfilled true) (Fulfilled true))
           eq_refl eq_refl eq_refl eq_refl).
Defined.
